(** * Verification of the keras-io example code

    Shallow embedding of the data-munging code of two guides.

    - The sequential-retrieval (GRU4Rec) notebook:
      [get_movie_sequence_per_user] and
      [generate_examples_from_user_sequences], in module [SequenceBuilder];
      [list_of_dicts_to_dict_of_lists] and the title dictionary in module
      [NotebookRest].
    - The function-calling guide: [extract_tool_call],
      [capture_code_output], [preprocess] and [try_parse_funccall], in module
      [FunctionCalling]; the prompts, [automated_tool_calling_example] and
      [encode_instruction] in module [GuideRest]; the flight-booking loop in
      module [FlightAgent].

    Python lists are Rocq lists, Python [int]s are [Z], lengths and indices
    are [nat], a Python [str] is the list of its characters (one [ascii] per
    code point below 256), exceptions are an explicit [Result].  What belongs
    to other packages (the tokenizer, the JSON codec, the random generator,
    the interpreter behind [eval] and [exec]) is a parameter of the
    functions; the control flow around it is the guides'.  Module [Demo]
    gives concrete stand-ins for those packages so that the functions can be
    run on examples.

    The definitions come first, then the lemmas, then the theorems C1-C10
    and the further properties X1-X23. *)

From Stdlib Require Import Ascii String.
From Stdlib Require Import List ZArith Lia Bool Permutation Sorted DecimalString.
Import ListNotations.

(** [sequence[start:stop]] for non-negative [start] and [stop]. *)
Definition slice {A : Type} (l : list A) (start stop : nat) : list A :=
  firstn (stop - start) (skipn start l).

Module SequenceBuilder.

(** One entry of a user's sequence: the dictionary
    [{"movie_id": .., "timestamp": .., "rating": ..}].  Ratings are the
    integers of the ratings file; the padding entry's [0.0] is the rating
    [0]. *)
Record Movie : Type := mkMovie {
  movie_id : Z;
  timestamp : Z;
  rating : Z
}.

(** One row of [ratings_df.values]: the columns are read in the order
    [user_id, movie_id, rating, timestamp]. *)
Record Row : Type := mkRow {
  row_user_id : Z;
  row_movie_id : Z;
  row_rating : Z;
  row_timestamp : Z
}.

(** The example dictionary
    [{"context_movie_id": [...], "label_movie_id": ..}]. *)
Record Example : Type := mkExample {
  context_movie_id : list Z;
  label_movie_id : Z
}.

(** The [collections.defaultdict(list)]: keys in order of first insertion,
    which is the order [sequences.items()] and [sequences.values()] use. *)
Definition Sequences : Type := list (Z * list Movie).

(** [sequences[user_id].append(m)] on the defaultdict: a missing key is
    created with an empty list, at the end of the insertion order. *)
Fixpoint dict_append (sequences : Sequences) (user_id : Z) (m : Movie) : Sequences :=
  match sequences with
  | [] => [(user_id, [m])]
  | (u, l) :: rest =>
      if Z.eqb u user_id then (u, l ++ [m]) :: rest
      else (u, l) :: dict_append rest user_id m
  end.

(** [list.sort(key=lambda x: x["timestamp"])]: a stable sort.  Insertion
    from the right keeps equal keys in their input order. *)
Fixpoint insert_by_timestamp (x : Movie) (l : list Movie) : list Movie :=
  match l with
  | [] => [x]
  | y :: t =>
      if (timestamp x <=? timestamp y)%Z then x :: y :: t
      else y :: insert_by_timestamp x t
  end.

Definition sort_by_timestamp (l : list Movie) : list Movie :=
  fold_right insert_by_timestamp [] l.

Definition get_movie_sequence_per_user (ratings_df : list Row) : Sequences :=
  let sequences :=
    fold_left
      (fun sequences r =>
         dict_append sequences (row_user_id r)
           (mkMovie (row_movie_id r) (row_timestamp r) (row_rating r)))
      ratings_df [] in
  (* Sort movie sequences by timestamp for every user. *)
  map (fun '(user_id, context) => (user_id, sort_by_timestamp context)) sequences.

(** The padding dictionary [{"movie_id": 0, "timestamp": 0, "rating": 0.0}]. *)
Definition PAD : Movie := mkMovie 0 0 0.

Section Builder.

(** The notebook's module-level constants, read by the functions when they
    run. *)
Variable MAX_CONTEXT_LENGTH : nat.
Variable MIN_SEQUENCE_LENGTH : nat.

(** [while len(context) < MAX_CONTEXT_LENGTH: context.append(PAD)].  Each
    turn makes the list one longer, so [MAX_CONTEXT_LENGTH] turns are
    enough ([padding_loop_exits]). *)
Fixpoint padding_loop (fuel : nat) (context : list Movie) : list Movie :=
  match fuel with
  | O => context
  | S fuel' =>
      if length context <? MAX_CONTEXT_LENGTH
      then padding_loop fuel' (context ++ [PAD])
      else context
  end.

(** The example built in the loop body for one [label_idx].  The loop only
    uses indices below [len(sequence)], so [sequence[label_idx]] never falls
    back on the default of [nth]. *)
Definition example_at (sequence : list Movie) (label_idx : nat) : Example :=
  let start_idx :=
    Z.to_nat (Z.max 0 (Z.of_nat label_idx - Z.of_nat MAX_CONTEXT_LENGTH)) in
  let context := slice sequence start_idx label_idx in
  (* Padding *)
  let context := padding_loop MAX_CONTEXT_LENGTH context in
  let label_movie_id := movie_id (nth label_idx sequence PAD) in
  let context_movie_id := map movie_id context in
  mkExample context_movie_id label_movie_id.

(** The body of [for label_idx in range(1, len(sequence))], on the pair
    [(train_examples, test_examples)]. *)
Definition user_step (sequence : list Movie)
    (acc : list Example * list Example) (label_idx : nat)
    : list Example * list Example :=
  let '(train_examples, test_examples) := acc in
  let example := example_at sequence label_idx in
  if label_idx =? length sequence - 1
  then (train_examples, test_examples ++ [example])
  else (train_examples ++ [example], test_examples).

Definition generate_examples_from_user_sequence (sequence : list Movie)
    : list Example * list Example :=
  fold_left (user_step sequence) (seq 1 (length sequence - 1)) ([], []).

(** The body of [for sequence in sequences.values()]. *)
Definition users_step (acc : list Example * list Example)
    (entry : Z * list Movie) : list Example * list Example :=
  let '(all_train_examples, all_test_examples) := acc in
  let sequence := snd entry in
  if length sequence <? MIN_SEQUENCE_LENGTH then acc
  else
    let '(user_train_examples, user_test_example) :=
      generate_examples_from_user_sequence sequence in
    (all_train_examples ++ user_train_examples,
     all_test_examples ++ user_test_example).

Definition generate_examples_from_user_sequences (sequences : Sequences)
    : list Example * list Example :=
  fold_left users_step sequences ([], []).

End Builder.

(** The values the notebook sets. *)
Definition notebook_MAX_CONTEXT_LENGTH : nat := 10.
Definition notebook_MIN_SEQUENCE_LENGTH : nat := 3.

End SequenceBuilder.

Module FunctionCalling.

(** Python [str]: the list of its characters. *)
Definition str : Type := list ascii.

(** A literal. *)
Definition py (s : string) : str := list_ascii_of_string s.

Definition newline : ascii := "010"%char.

(** [str.isspace] on one character, which is also the class [\s] of [re] on
    [str] patterns: the code points 9-13, 28-32, 133 and 160 (below 256). *)
Definition isspace (c : ascii) : bool :=
  let n := nat_of_ascii c in
  ((9 <=? n) && (n <=? 13)) || ((28 <=? n) && (n <=? 32))
  || (n =? 133) || (n =? 160).

Fixpoint lstrip (s : str) : str :=
  match s with
  | c :: s' => if isspace c then lstrip s' else s
  | [] => []
  end.

Definition rstrip (s : str) : str := rev (lstrip (rev s)).

(** [s.strip()] *)
Definition strip (s : str) : str := rstrip (lstrip s).

(** [s.startswith(p)] *)
Fixpoint starts_with (p s : str) : bool :=
  match p, s with
  | [], _ => true
  | c :: p', c' :: s' => Ascii.eqb c c' && starts_with p' s'
  | _ :: _, [] => false
  end.

(** [s.find(sub)]: the index of the first occurrence, [None] for [-1]. *)
Fixpoint find (sub s : str) : option nat :=
  if starts_with sub s then Some 0
  else
    match s with
    | [] => None
    | _ :: s' => option_map S (find sub s')
    end.

Module Regex.

(** The fragment of [re] patterns the guide uses. *)
Inductive regex : Type :=
| Chr (c : ascii)                 (* a literal character *)
| Cat (r1 r2 : regex)             (* r1 r2 *)
| Greedy (cls : ascii -> bool)    (* [cls]*  : as many as possible first *)
| Lazy (cls : ascii -> bool)      (* [cls]*? : as few as possible first *)
| Group (r : regex)               (* ( r ), the pattern's only group *)
| Eps.                            (* the empty pattern *)

(** A run of literal characters. *)
Definition literal (s : str) : regex :=
  fold_right (fun c r => Cat (Chr c) r) Eps s.

Section Matcher.

Variable R : Type.

(** Backtracking matcher in continuation style: [k] is tried on what is left
    of the subject; [None] makes the matcher fall back to its next
    alternative. *)
Fixpoint greedy (cls : ascii -> bool) (s : str) (k : str -> option R) : option R :=
  match s with
  | c :: s' =>
      if cls c then
        match greedy cls s' k with
        | Some r => Some r
        | None => k s
        end
      else k s
  | [] => k s
  end.

Fixpoint lazy (cls : ascii -> bool) (s : str) (k : str -> option R) : option R :=
  match k s with
  | Some r => Some r
  | None =>
      match s with
      | c :: s' => if cls c then lazy cls s' k else None
      | [] => None
      end
  end.

Fixpoint run (r : regex) (s : str) (g : option str)
    (k : str -> option str -> option R) : option R :=
  match r with
  | Chr c =>
      match s with
      | c' :: s' => if Ascii.eqb c c' then k s' g else None
      | [] => None
      end
  | Cat r1 r2 => run r1 s g (fun s' g' => run r2 s' g' k)
  | Greedy cls => greedy cls s (fun s' => k s' g)
  | Lazy cls => lazy cls s (fun s' => k s' g)
  | Group r1 =>
      run r1 s g (fun s' _ => k s' (Some (firstn (length s - length s') s)))
  | Eps => k s g
  end.

End Matcher.

(** [re.match]: the text of group 1 of the first way the pattern matches at
    the start of [s]. *)
Definition match_here (r : regex) (s : str) : option (option str) :=
  run (option str) r s None (fun _ g => Some g).

(** [re.search]: the leftmost position where the pattern matches. *)
Fixpoint search (r : regex) (s : str) : option (option str) :=
  match match_here r s with
  | Some g => Some g
  | None =>
      match s with
      | _ :: s' => search r s'
      | [] => None
      end
  end.

End Regex.

Definition any_char (c : ascii) : bool := true.

Definition fence_open : str := py "```tool_code".
Definition fence_close : str := newline :: py "```".

(** [r"```tool_code\s*\n(.*?)\n```"] with [re.DOTALL]: the dot matches every
    character. *)
Definition tool_call_pattern : Regex.regex :=
  Regex.Cat (Regex.literal fence_open)
    (Regex.Cat (Regex.Greedy isspace)
       (Regex.Cat (Regex.Chr newline)
          (Regex.Cat (Regex.Group (Regex.Lazy any_char))
             (Regex.literal fence_close)))).

(** [extract_tool_call]: [match.group(1).strip()] when the search finds a
    match, [None] otherwise.  Group 1 takes part in every match of this
    pattern. *)
Definition extract_tool_call (response_text : str) : option str :=
  match Regex.search tool_call_pattern response_text with
  | Some g => Some (strip (match g with Some t => t | None => [] end))
  | None => None
  end.


(** ** Exceptions and values *)

(** The exception classes the guide's handlers tell apart.  A class stands
    for itself and its subclasses that are not listed: [JSONDecodeError] is
    the subclass of [ValueError] that [json] raises, [OtherException] is any
    other subclass of [Exception], and [BaseExceptionOnly] is an exception
    outside [Exception] ([SystemExit], [KeyboardInterrupt],
    [GeneratorExit]). *)
Inductive ExcClass : Type :=
| SyntaxError
| JSONDecodeError
| KeyError
| TypeError
| ValueError
| OtherException
| BaseExceptionOnly.

(** An exception object: its class and [str(e)]. *)
Record PyExc : Type := mkExc {
  exc_class : ExcClass;
  exc_text : str
}.

(** [isinstance(e, Exception)] *)
Definition is_Exception (c : ExcClass) : bool :=
  match c with
  | BaseExceptionOnly => false
  | _ => true
  end.

(** [isinstance(e, SyntaxError)] *)
Definition is_SyntaxError (c : ExcClass) : bool :=
  match c with
  | SyntaxError => true
  | _ => false
  end.

(** How a call ends: with a value or with a raised exception. *)
Inductive Result (A : Type) : Type :=
| Ok (a : A)
| Raise (e : PyExc).
Arguments Ok {A} a.
Arguments Raise {A} e.

(** Python values: what [json] decodes to and encodes from, and what [eval]
    may return.  A float is carried as its binary64 bit pattern; dictionaries
    keep insertion order and have string keys; [VObject] is any other
    object. *)
#[warnings="-register-all"]
Inductive Value : Type :=
| VNone
| VBool (b : bool)
| VInt (z : Z)
| VFloat (bits : Z)
| VStr (s : str)
| VList (items : list Value)
| VDict (entries : list (str * Value))
| VObject (id : nat).

Definition str_eqb (a b : str) : bool :=
  if list_eq_dec ascii_dec a b then true else false.

(** [d[key]]: [None] stands for [KeyError]. *)
Fixpoint dict_get (d : list (str * Value)) (key : str) : option Value :=
  match d with
  | [] => None
  | (k, v) :: rest => if str_eqb k key then Some v else dict_get rest key
  end.

(** [d[key] = v]: an existing key keeps its place, a new one goes last. *)
Fixpoint dict_set (d : list (str * Value)) (key : str) (v : Value) : list (str * Value) :=
  match d with
  | [] => [(key, v)]
  | (k, v0) :: rest =>
      if str_eqb k key then (k, v) :: rest else (k, v0) :: dict_set rest key v
  end.

(** [isinstance(v, dict)] *)
Definition is_dict (v : Value) : bool :=
  match v with
  | VDict _ => true
  | _ => false
  end.

(** Lists and dictionaries cannot be hashed, so they cannot be looked up in
    a dictionary. *)
Definition hashable (v : Value) : bool :=
  match v with
  | VList _ | VDict _ => false
  | _ => true
  end.

(** ** [capture_code_output] *)

(** The [io.StringIO] object [output]: the text it holds (what it held when
    it was closed) and whether it is closed.  The executed code reaches it
    through [sys.stdout]; it can write to it, and it can close it. *)
Record Buffer : Type := mkBuffer {
  buffer_text : str;
  buffer_closed : bool
}.

(** [io.StringIO()] *)
Definition StringIO : Buffer := mkBuffer [] false.

Definition closed_file : PyExc :=
  mkExc ValueError (py "I/O operation on closed file").

(** [output.getvalue()] *)
Definition getvalue (output : Buffer) : Result str :=
  if buffer_closed output then Raise closed_file else Ok (buffer_text output).

Section CaptureCodeOutput.

(** The interpreter behind [eval] and [exec].  [World] is everything the
    executed code can read and change (the contents of the namespaces
    included); a [Namespace] is a dictionary object. *)
Variable World : Type.
Variable Namespace : Type.

(** What one call of [eval] or [exec] does: the state in which it leaves the
    redirected standard output, how it ends, and the world it leaves. *)
Record Run (A : Type) : Type := mkRun {
  run_stdout : Buffer;
  run_result : Result A;
  run_world : World
}.
Arguments run_stdout {A} r.
Arguments run_result {A} r.
Arguments run_world {A} r.

Variable new_dict : World -> Namespace * World.          (* [{}] *)

(** [eval] and [exec] on the code, the two namespaces and the redirected
    output as it is when the call starts. *)
Variable py_eval : str -> Namespace -> Namespace -> Buffer -> World -> Run Value.
Variable py_exec : str -> Namespace -> Namespace -> Buffer -> World -> Run unit.

(** [str(e)] as an f-string computes it.  For an exception of a builtin
    class it is [exc_text e]; for an exception of a class of the executed
    code it runs the [__str__] of that class, which may do and raise
    anything. *)
Variable exc_str : PyExc -> World -> Result str * World.

(** The [with contextlib.redirect_stdout(output)] block: the state of
    [output] at its end, how the block ends, and the world. *)
Definition redirected_block (code_string : str) (globals_dict locals_dict : Namespace)
    (output : Buffer) (w : World) : Run Value :=
  (* Try to evaluate as an expression *)
  let attempt := py_eval code_string globals_dict locals_dict output w in
  match run_result attempt with
  | Ok result => attempt
  | Raise e =>
      if is_SyntaxError (exc_class e) then
        (* If not an expression, execute as statements *)
        let r := py_exec code_string globals_dict locals_dict
                   (run_stdout attempt) (run_world attempt) in
        mkRun Value (run_stdout r)
          (match run_result r with
           | Ok _ => Ok VNone                       (* result = None *)
           | Raise e' => Raise e'
           end)
          (run_world r)
      else attempt
  end.

(** The two defaults: [globals_dict = {}] when it is [None], then
    [locals_dict = globals_dict] when it is [None]. *)
Definition default_namespaces (globals_dict locals_dict : option Namespace) (w : World)
    : Namespace * Namespace * World :=
  let '(globals_dict, w) :=
    match globals_dict with
    | None => new_dict w
    | Some d => (d, w)
    end in
  let locals_dict :=
    match locals_dict with
    | None => globals_dict
    | Some d => d
    end in
  (globals_dict, locals_dict, w).

Definition capture_code_output (code_string : str)
    (globals_dict locals_dict : option Namespace) (w : World)
    : Result Value * World :=
  let '(globals_dict, locals_dict, w) :=
    default_namespaces globals_dict locals_dict w in
  let output := StringIO in
  let block := redirected_block code_string globals_dict locals_dict output w in
  match run_result block with
  | Raise e =>
      if is_Exception (exc_class e)
      then
        (* return f"Error during code execution: {e}" *)
        match exc_str e (run_world block) with
        | (Ok text, w) => (Ok (VStr (py "Error during code execution: " ++ text)), w)
        | (Raise e', w) => (Raise e', w)
        end
      else (Raise e, run_world block)
  | Ok result =>
      (* stdout_output = output.getvalue(), after the try statement *)
      match getvalue (run_stdout block) with
      | Raise e => (Raise e, run_world block)
      | Ok stdout_output =>
          match strip stdout_output with
          | _ :: _ => (Ok (VStr stdout_output), run_world block)
          | [] => (Ok result, run_world block)
          end
      end
  end.

End CaptureCodeOutput.

Arguments mkRun {World A} run_stdout run_result run_world.
Arguments run_stdout {World A} r.
Arguments run_result {World A} r.
Arguments run_world {World A} r.

(** ** [preprocess] *)

(** [np.concatenate] of one-dimensional arrays. *)
Definition np_concatenate (arrays : list (list Z)) : Result (list Z) :=
  match arrays with
  | [] => Raise (mkExc ValueError (py "need at least one array to concatenate"))
  | _ => Ok (concat arrays)
  end.

(** [row[:stop]], for any integer [stop]: a negative one counts from the
    end. *)
Definition slice_upto {A : Type} (stop : Z) (row : list A) : list A :=
  if (stop <? 0)%Z
  then firstn (Z.to_nat (Z.of_nat (length row) + stop)) row
  else firstn (Z.to_nat stop) row.

(** [a.shape[1]] of a two-dimensional array, kept as the list of its rows. *)
Definition shape1 (a : list (list Z)) : Z := Z.of_nat (length (hd [] a)).

(** [np.arange(n)] *)
Definition np_arange (n : Z) : list Z := map Z.of_nat (seq 0 (Z.to_nat n)).

(** The dictionary [{"token_ids": .., "padding_mask": ..}]. *)
Record Batch : Type := mkBatch {
  token_ids : list (list Z);
  padding_mask : list (list Z)
}.

Definition preprocess (messages : list (list Z)) (sequence_length : Z) : Result Batch :=
  match np_concatenate messages with
  | Raise e => Raise e
  | Ok flat =>
      let concatd := [flat] in                       (* np.expand_dims(.., 0) *)
      (* Truncate if the sequence is too long *)
      let concatd :=
        if (shape1 concatd >? sequence_length)%Z
        then map (slice_upto sequence_length) concatd
        else concatd in
      (* Calculate padding needed *)
      let padding_needed := Z.max 0 (sequence_length - shape1 concatd) in
      Ok (mkBatch
            (map (fun row => row ++ repeat 0%Z (Z.to_nat padding_needed)) concatd)
            [map (fun i => if (i <? shape1 concatd)%Z then 1%Z else 0%Z)
                 (np_arange sequence_length)])
  end.

(** The default [sequence_length]. *)
Definition default_sequence_length : Z := 8192.

(** ** [try_parse_funccall] *)

(** The [keras_hub] tokenizer: [tokenizer.token_to_id], [tokenizer.detokenize]
    and the call [tokenizer(text)]. *)
Record Tokenizer : Type := mkTokenizer {
  token_to_id : str -> Z;
  detokenize : list Z -> str;
  tokenize : str -> list Z
}.

(** The [json] module: [JSONDecoder().raw_decode], which returns the decoded
    value and the index where it ends, and [json.dumps]. *)
Record JsonCodec : Type := mkJsonCodec {
  raw_decode : str -> Result (Value * nat);
  dumps : Value -> Result str
}.

(** The module [random]: a generator state and the draw
    [floor(random() * n)] that [random.choices] makes for a population of
    [n] elements, always below [n]. *)
Record RandomGen : Type := mkRandomGen {
  Rng : Type;
  random_index : Rng -> nat -> nat * Rng;
  random_index_lt : forall g n, 0 < n -> fst (random_index g n) < n
}.

(** A tool: a callable applied to keyword arguments. *)
Definition Tool : Type := list (str * Value) -> Result Value.

(** The module-level dictionary [tools]. *)
Definition Tools : Type := list (str * Tool).

Fixpoint tools_get (tools : Tools) (name : str) : option Tool :=
  match tools with
  | [] => None
  | (k, f) :: rest => if str_eqb k name then Some f else tools_get rest name
  end.

(** [string.ascii_letters + string.digits] *)
Definition id_alphabet : str :=
  py "abcdefghijklmnopqrstuvwxyzABCDEFGHIJKLMNOPQRSTUVWXYZ0123456789".

(** [np.where(a == x)[0]]: the positions of [x] in [a]. *)
Fixpoint np_where_eq (a : list Z) (x : Z) (from : nat) : list nat :=
  match a with
  | [] => []
  | y :: a' =>
      if Z.eqb y x then from :: np_where_eq a' x (S from)
      else np_where_eq a' x (S from)
  end.

(** The exceptions [except (json.JSONDecodeError, KeyError, TypeError,
    ValueError)] catches. *)
Definition parser_catches (c : ExcClass) : bool :=
  match c with
  | JSONDecodeError | KeyError | TypeError | ValueError => true
  | _ => false
  end.

Section TryParseFunccall.

Variable tokenizer : Tokenizer.
Variable json : JsonCodec.
Variable random : RandomGen.
Variable tools : Tools.

(** [random.choices(population, k=k)] *)
Fixpoint choices (population : str) (k : nat) (g : Rng random) : str * Rng random :=
  match k with
  | O => ([], g)
  | S k' =>
      let '(i, g) := random_index random g (length population) in
      let '(rest, g) := choices population k' g in
      (nth i population zero :: rest, g)
  end.

(** The body of [for call in tool_calls], then the rest of the loop and
    [return res]. *)
Fixpoint call_loop (tool_calls : list Value) (res : list (list Z)) (g : Rng random)
    : Result (list (list Z)) * Rng random :=
  match tool_calls with
  | [] => (Ok res, g)
  | call :: rest =>
      (* assign a random call ID *)
      let '(call_id, g) := choices id_alphabet 9 g in
      match call with
      | VDict entries =>
          let call := dict_set entries (py "id") (VStr call_id) in
          match dict_get call (py "name") with
          | None => (Raise (mkExc KeyError (py "'name'")), g)
          | Some name =>
              if negb (hashable name)
              then (Raise (mkExc TypeError (py "unhashable type")), g)
              else
                match
                  match name with
                  | VStr n => tools_get tools n
                  | _ => None
                  end
                with
                | None => call_loop rest res g          (* Skip unknown tools *)
                | Some tool =>
                    let res := res ++ [[token_to_id tokenizer (py "[TOOL_RESULTS]")]] in
                    match dict_get call (py "arguments") with
                    | None => (Raise (mkExc KeyError (py "'arguments'")), g)
                    | Some (VDict kwargs) =>
                        match tool kwargs with
                        | Raise e => (Raise e, g)
                        | Ok content =>
                            match dict_get call (py "id") with
                            | None => (Raise (mkExc KeyError (py "'id'")), g)
                            | Some id =>
                                match dumps json
                                        (VDict [(py "content", content);
                                                (py "call_id", id)]) with
                                | Raise e => (Raise e, g)
                                | Ok text =>
                                    let res := res ++ [tokenize tokenizer text] in
                                    let res :=
                                      res ++ [[token_to_id tokenizer (py "[/TOOL_RESULTS]")]] in
                                    call_loop rest res g
                                end
                            end
                        end
                    | Some _ =>
                        (Raise (mkExc TypeError
                                  (py "argument after ** must be a mapping")), g)
                    end
                end
          end
      | _ =>
          (Raise (mkExc TypeError (py "object does not support item assignment")), g)
      end
  end.

(** The result, the generator state afterwards, and the lines printed. *)
Definition try_parse_funccall (response : list Z) (g : Rng random)
    : Result (list (list Z)) * Rng random * list str :=
  (* find the tool call in the response, if any *)
  let tool_call_id := token_to_id tokenizer (py "[TOOL_CALLS]") in
  match np_where_eq response tool_call_id 0 with
  | [] => (Ok [response], g, [])
  | pos :: _ =>
      let '(attempt, g) :=
        match raw_decode json (detokenize tokenizer (skipn (pos + 1) response)) with
        | Raise e => (Raise e, g)
        | Ok (tool_calls, _) =>
            match tool_calls with
            | VList items =>
                if forallb is_dict items
                then call_loop items [] g
                else (Ok [response], g)
            | _ => (Ok [response], g)
            end
        end in
      match attempt with
      | Ok res => (Ok res, g, [])
      | Raise e =>
          if parser_catches (exc_class e)
          then
            (* Log the error for debugging *)
            (Ok [response], g, [py "Error parsing tool call: " ++ exc_text e])
          else (Raise e, g, [])
      end
  end.

End TryParseFunccall.

End FunctionCalling.

(** ** A small environment to run the functions in

    Stand-ins for the external packages, enough to run the guide's functions
    on concrete inputs: a character-level tokenizer with Mistral's control
    tokens, a JSON codec for the subset without floats and escapes, a
    generator of period nine, one registered tool, and an interpreter that
    knows a handful of programs. *)
Module Demo.
Import SequenceBuilder FunctionCalling.

(** The scenario of the notebook's description: one user, four films. *)
Definition demo_ratings : list Row :=
  [mkRow 1 10 5 100; mkRow 1 20 5 200; mkRow 1 30 4 300; mkRow 1 40 4 400].

Definition demo_sequence : list Movie :=
  [mkMovie 10 100 5; mkMovie 20 200 5; mkMovie 30 300 4; mkMovie 40 400 4].


(** The double quote, and JSON text written with single quotes in its
    place. *)
Definition dquote : ascii := "034"%char.

Definition json_text (s : string) : str :=
  map (fun c => if Ascii.eqb c "'" then dquote else c) (py s).

Definition char_token (c : ascii) : Z := 1000 + Z.of_nat (nat_of_ascii c).

Definition demo_tokenizer : Tokenizer :=
  mkTokenizer
    (fun name =>
       if str_eqb name (py "[TOOL_CALLS]") then 5%Z
       else if str_eqb name (py "[TOOL_RESULTS]") then 8%Z
       else if str_eqb name (py "[/TOOL_RESULTS]") then 9%Z
       else 0%Z)
    (fun ids =>
       flat_map
         (fun t => if ((1000 <=? t) && (t <? 1256))%Z
                   then [ascii_of_nat (Z.to_nat (t - 1000))] else [])
         ids)
    (map char_token).

(** *** Decoding *)

Definition json_ws (c : ascii) : bool :=
  let n := nat_of_ascii c in (n =? 32) || (n =? 9) || (n =? 10) || (n =? 13).

Fixpoint skip_ws (s : str) : str :=
  match s with
  | c :: s' => if json_ws c then skip_ws s' else s
  | [] => []
  end.

Definition is_digit (c : ascii) : bool :=
  let n := nat_of_ascii c in (48 <=? n) && (n <=? 57).

Fixpoint take_digits (s : str) (acc : Z) : Z * str :=
  match s with
  | c :: s' =>
      if is_digit c
      then take_digits s' (10 * acc + Z.of_nat (nat_of_ascii c - 48))
      else (acc, s)
  | [] => (acc, [])
  end.

(** The characters up to the closing quote; a backslash is outside the
    subset. *)
Fixpoint take_string (s : str) : option (str * str) :=
  match s with
  | [] => None
  | c :: s' =>
      if Ascii.eqb c dquote then Some ([], s')
      else if Ascii.eqb c "\" then None
      else match take_string s' with
           | Some (t, rest) => Some (c :: t, rest)
           | None => None
           end
  end.

Section Containers.

Variable parse_value : str -> option (Value * str).

(** The elements after the first one's position, up to the closing
    bracket. *)
Fixpoint parse_elems (n : nat) (s : str) (acc : list Value) : option (Value * str) :=
  match n with
  | O => None
  | S n' =>
      match parse_value s with
      | None => None
      | Some (v, rest) =>
          match skip_ws rest with
          | c :: rest' =>
              if Ascii.eqb c "," then parse_elems n' (skip_ws rest') (acc ++ [v])
              else if Ascii.eqb c "]" then Some (VList (acc ++ [v]), rest')
              else None
          | [] => None
          end
      end
  end.

Fixpoint parse_members (n : nat) (s : str) (acc : list (str * Value))
    : option (Value * str) :=
  match n with
  | O => None
  | S n' =>
      match s with
      | c :: s1 =>
          if Ascii.eqb c dquote then
            match take_string s1 with
            | None => None
            | Some (key, s2) =>
                match skip_ws s2 with
                | c2 :: s3 =>
                    if Ascii.eqb c2 ":" then
                      match parse_value (skip_ws s3) with
                      | None => None
                      | Some (v, rest) =>
                          match skip_ws rest with
                          | c3 :: rest' =>
                              if Ascii.eqb c3 ","
                              then parse_members n' (skip_ws rest') (dict_set acc key v)
                              else if Ascii.eqb c3 "}"
                              then Some (VDict (dict_set acc key v), rest')
                              else None
                          | [] => None
                          end
                      end
                    else None
                | [] => None
                end
            end
          else None
      | [] => None
      end
  end.

End Containers.

Fixpoint parse_value (fuel : nat) (s : str) : option (Value * str) :=
  match fuel with
  | O => None
  | S fuel' =>
      match s with
      | [] => None
      | c :: s1 =>
          if Ascii.eqb c "[" then
            match skip_ws s1 with
            | c1 :: s2 =>
                if Ascii.eqb c1 "]" then Some (VList [], s2)
                else parse_elems (parse_value fuel') (length s1) (c1 :: s2) []
            | [] => None
            end
          else if Ascii.eqb c "{" then
            match skip_ws s1 with
            | c1 :: s2 =>
                if Ascii.eqb c1 "}" then Some (VDict [], s2)
                else parse_members (parse_value fuel') (length s1) (c1 :: s2) []
            | [] => None
            end
          else if Ascii.eqb c dquote then
            match take_string s1 with
            | Some (t, rest) => Some (VStr t, rest)
            | None => None
            end
          else if is_digit c then
            let '(z, rest) := take_digits s 0 in Some (VInt z, rest)
          else if Ascii.eqb c "-" then
            match s1 with
            | d :: _ =>
                if is_digit d
                then let '(z, rest) := take_digits s1 0 in Some (VInt (- z), rest)
                else None
            | [] => None
            end
          else if starts_with (py "null") s then Some (VNone, skipn 4 s)
          else if starts_with (py "true") s then Some (VBool true, skipn 4 s)
          else if starts_with (py "false") s then Some (VBool false, skipn 5 s)
          else None
      end
  end.

Definition demo_raw_decode (s : str) : Result (Value * nat) :=
  match parse_value (S (length s)) s with
  | Some (v, rest) =>
      match rest with
      | c :: _ =>
          (* a fraction or an exponent would make the number a float *)
          if Ascii.eqb c "." || Ascii.eqb c "e" || Ascii.eqb c "E"
          then Raise (mkExc JSONDecodeError (py "Expecting value"))
          else Ok (v, length s - length rest)
      | [] => Ok (v, length s)
      end
  | None => Raise (mkExc JSONDecodeError (py "Expecting value"))
  end.

(** *** Encoding *)

Definition quoted (s : str) : str := (dquote :: s) ++ [dquote].

Definition decimal (z : Z) : str := py (NilZero.string_of_int (Z.to_int z)).

Fixpoint encode (v : Value) : option str :=
  match v with
  | VNone => Some (py "null")
  | VBool true => Some (py "true")
  | VBool false => Some (py "false")
  | VInt z => Some (decimal z)
  | VStr s => Some (quoted s)
  | VList items =>
      let fix elems (l : list Value) : option str :=
        match l with
        | [] => Some []
        | x :: l' =>
            match encode x, elems l' with
            | Some t, Some rest =>
                Some (t ++ match l' with [] => [] | _ => py ", " end ++ rest)
            | _, _ => None
            end
        end in
      option_map (fun t => py "[" ++ t ++ py "]") (elems items)
  | VDict entries =>
      let fix members (l : list (str * Value)) : option str :=
        match l with
        | [] => Some []
        | (k, x) :: l' =>
            match encode x, members l' with
            | Some t, Some rest =>
                Some (quoted k ++ py ": " ++ t
                        ++ match l' with [] => [] | _ => py ", " end ++ rest)
            | _, _ => None
            end
        end in
      option_map (fun t => py "{" ++ t ++ py "}") (members entries)
  | VFloat _ | VObject _ => None
  end.

Definition demo_dumps (v : Value) : Result str :=
  match encode v with
  | Some t => Ok t
  | None => Raise (mkExc TypeError (py "Object is not JSON serializable"))
  end.

Definition demo_json : JsonCodec := mkJsonCodec demo_raw_decode demo_dumps.

(** *** The generator, the tools, the interpreter *)

(** A generator whose state comes back after nine draws. *)
Definition demo_random : RandomGen.
Proof.
  refine (mkRandomGen nat (fun g n => (g mod n, S g mod 9)) _).
  intros g n Hn. simpl. apply Nat.mod_upper_bound. lia.
Defined.

(** [known_tool = lambda x: x + 1], on integers. *)
Definition known_tool : Tool :=
  fun kwargs =>
    match kwargs with
    | [(name, VInt x)] =>
        if str_eqb name (py "x") then Ok (VInt (x + 1))
        else Raise (mkExc TypeError (py "got an unexpected keyword argument"))
    | _ => Raise (mkExc TypeError (py "bad arguments"))
    end.

(** [str(v)] for the values whose text is plain. *)
Definition plain_text (v : Value) : option str :=
  match v with
  | VNone => Some (py "None")
  | VBool true => Some (py "True")
  | VBool false => Some (py "False")
  | VInt z => Some (decimal z)
  | VStr s => Some s
  | _ => None
  end.

(** The guide's
    [lambda id: {"status": "success", "message": f"Flight {id} booked successfully"}],
    for ids whose text is plain. *)
Definition book_flight : Tool :=
  fun kwargs =>
    match kwargs with
    | [(name, id)] =>
        if str_eqb name (py "id") then
          match plain_text id with
          | Some t =>
              Ok (VDict [(py "status", VStr (py "success"));
                         (py "message",
                          VStr (py "Flight " ++ t ++ py " booked successfully"))])
          | None => Raise (mkExc OtherException (py "id outside the stand-in"))
          end
        else Raise (mkExc TypeError (py "got an unexpected keyword argument"))
    | _ => Raise (mkExc TypeError (py "bad arguments"))
    end.

Definition demo_tools : Tools :=
  [(py "known_tool", known_tool); (py "book_flight", book_flight)].









(** A response: the text before the marker, the [[TOOL_CALLS]] token, the
    payload. *)
Definition demo_response (before : string) (payload : str) : list Z :=
  tokenize demo_tokenizer (py before) ++ [5%Z] ++ tokenize demo_tokenizer payload.

Definition demo_parse (response : list Z) (g : nat) :=
  try_parse_funccall demo_tokenizer demo_json demo_random demo_tools response g.

End Demo.

(** * The rest of the sequential-retrieval notebook *)

Module NotebookRest.
Import SequenceBuilder FunctionCalling.

(** ** [list_of_dicts_to_dict_of_lists] *)

Section DictOfLists.

Variable V : Type.

(** [dict_of_lists[key].append(value)] on the [defaultdict(list)]: a missing
    key is created with an empty list, at the end of the insertion order. *)
Fixpoint column_append (dict_of_lists : list (str * list V)) (key : str) (value : V)
    : list (str * list V) :=
  match dict_of_lists with
  | [] => [(key, [value])]
  | (k, column) :: rest =>
      if str_eqb k key then (k, column ++ [value]) :: rest
      else (k, column) :: column_append rest key value
  end.

(** A dictionary is the list of its items, in insertion order. *)
Definition list_of_dicts_to_dict_of_lists (list_of_dicts : list (list (str * V)))
    : list (str * list V) :=
  fold_left
    (fun dict_of_lists dictionary =>
       fold_left
         (fun dict_of_lists '(key, value) => column_append dict_of_lists key value)
         dictionary dict_of_lists)
    list_of_dicts [].

(** [d[key]] on a dictionary of lists: [None] stands for a missing key. *)
Fixpoint column (dict_of_lists : list (str * list V)) (key : str) : option (list V) :=
  match dict_of_lists with
  | [] => None
  | (k, c) :: rest => if str_eqb k key then Some c else column rest key
  end.

End DictOfLists.

Arguments column_append {V} dict_of_lists key value.
Arguments list_of_dicts_to_dict_of_lists {V} list_of_dicts.
Arguments column {V} dict_of_lists key.

(** The items of the example dictionary the builder makes: the context
    first, the label second. *)
Definition example_items (e : Example) : list (str * Value) :=
  [(py "context_movie_id", VList (map VInt (context_movie_id e)));
   (py "label_movie_id", VInt (label_movie_id e))].

(** ** [movie_id_to_movie_title] *)

(** [d[key] = v] on a dictionary keyed by movie id: an existing key keeps
    its place, a new one goes last. *)
Fixpoint title_set (d : list (Z * str)) (key : Z) (v : str) : list (Z * str) :=
  match d with
  | [] => [(key, v)]
  | (k, v0) :: rest =>
      if Z.eqb k key then (k, v) :: rest else (k, v0) :: title_set rest key v
  end.

(** [d[key]]: [None] stands for [KeyError]. *)
Fixpoint title_get (d : list (Z * str)) (key : Z) : option str :=
  match d with
  | [] => None
  | (k, v) :: rest => if Z.eqb k key then Some v else title_get rest key
  end.

(** [dict(zip(movies_df["MovieID"], movies_df["Title"]))] followed by
    [movie_id_to_movie_title[0] = ""]; the two columns come as the list of
    their pairs. *)
Definition movie_id_to_movie_title (movies_df : list (Z * str)) : list (Z * str) :=
  let d := fold_left (fun d '(movie_id, title) => title_set d movie_id title)
                     movies_df [] in
  title_set d 0 [].    (* Because id 0 is not in the dataset. *)

End NotebookRest.

(** * The rest of the function-calling guide *)

Module GuideRest.
Import FunctionCalling.

Definition quote_char : ascii := "034"%char.

(** [str(n)] for an integer. *)
Definition decimal (z : Z) : str := py (NilZero.string_of_int (Z.to_int z)).

(** ** The prompts *)

(** The text the two prompts share, up to the user's question. *)
Definition prompt_head : str :=
  concat
    [[newline];
     py "<start_of_turn>user" ++ [newline];
     py "At each turn, if you decide to invoke any of the function(s), it should be wrapped with ```tool_code```. The python methods described below are imported and available, you can only use defined methods and must not reimplement them. The generated code should be readable and efficient. I will provide the response wrapped in ```tool_output```, use it to call more tools or generate a helpful, friendly response. When using a ```tool_call``` think step by step why and how it should be used." ++ [newline];
     [newline];
     py "The following Python methods are available:" ++ [newline];
     [newline];
     py " ```python" ++ [newline];
     py "def convert(amount, currency, new_currency):" ++ [newline];
     py "    " ++ [quote_char] ++ [quote_char] ++ [quote_char] ++ py "Convert the currency with the latest exchange rate" ++ [newline];
     [newline];
     py "    Args:" ++ [newline];
     py "        amount: The amount of currency to convert" ++ [newline];
     py "        currency: The currency to convert from" ++ [newline];
     py "        new_currency: The currency to convert to" ++ [newline];
     py "    " ++ [quote_char] ++ [quote_char] ++ [quote_char] ++ [newline];
     py " ```" ++ [newline];
     [newline]].

Definition turn_end : str :=
  py "<end_of_turn>" ++ [newline] ++ py "<start_of_turn>model" ++ [newline].

(** The prompt [message] of the first example. *)
Definition message : str :=
  prompt_head ++ py "User: What is $200,000 in EUR?" ++ turn_end.

Definition user_message : str :=
  py "What is $500 in EUR, and then what is that amount in USD?".

(** The f-string [base_prompt] of [automated_tool_calling_example]. *)
Definition base_prompt : str :=
  prompt_head ++ py "User: " ++ user_message ++ turn_end.

(** ** [automated_tool_calling_example] *)

(** [f"```tool_code\n{tool_code}\n```<end_of_turn>"] *)
Definition tool_code_turn (tool_code : str) : str :=
  py "```tool_code" ++ [newline] ++ tool_code ++ [newline]
    ++ py "```<end_of_turn>".

(** [f"<start_of_turn>user\n```tool_output\n{tool_result}\n```<end_of_turn>"] *)
Definition tool_output_turn (tool_result : str) : str :=
  py "<start_of_turn>user" ++ [newline] ++ py "```tool_output" ++ [newline]
    ++ tool_result ++ [newline] ++ py "```<end_of_turn>".

(** [f"<start_of_turn>model\n"] *)
Definition model_turn : str := py "<start_of_turn>model" ++ [newline].

(** What the function prints, call by call.  [print] writes to the
    notebook's standard output and is taken to succeed. *)
Inductive Printed : Type :=
| TurnHeader (number : Z)             (* f"\n--- Turn {turn + 1} ---" *)
| ModelResponse (response : str)      (* f"Model response: {response}" *)
| Executing (tool_code : str)         (* f"Executing: {tool_code}" *)
| ToolResult (tool_result : str)      (* f"Tool result: {tool_result}" *)
| ErrorExecutingTool (e : str)        (* f"Error executing tool: {e}" *)
| NoToolCallFound                     (* "No tool call found - conversation complete" *)
| FinalConversation                   (* "\n--- Final Conversation ---" *)
| Line (text : str).                  (* print(context), print(hist) *)

Definition printed_text (p : Printed) : str :=
  match p with
  | TurnHeader n => [newline] ++ py "--- Turn " ++ decimal n ++ py " ---"
  | ModelResponse response => py "Model response: " ++ response
  | Executing tool_code => py "Executing: " ++ tool_code
  | ToolResult tool_result => py "Tool result: " ++ tool_result
  | ErrorExecutingTool e => py "Error executing tool: " ++ e
  | NoToolCallFound => py "No tool call found - conversation complete"
  | FinalConversation => [newline] ++ py "--- Final Conversation ---"
  | Line text => text
  end.

Section AutomatedToolCalling.

(** The interpreter, as for [capture_code_output]; the language model; the
    dictionary [{"convert": convert}]; and what an f-string makes of a value
    that is not a string, which runs the [__format__] of the value's class
    and may do and raise anything. *)
Variable World : Type.
Variable Namespace : Type.
Variable new_dict : World -> Namespace * World.
Variable py_eval : str -> Namespace -> Namespace -> Buffer -> World -> Run World Value.
Variable py_exec : str -> Namespace -> Namespace -> Buffer -> World -> Run World unit.
Variable exc_str : PyExc -> World -> Result str * World.
Variable generate : str -> World -> str * World.   (* gemma.generate(context, strip_prompt=True) *)
Variable local_vars : World -> Namespace * World.
Variable py_format : Value -> World -> Result str * World.

(** [f"{tool_result}"] *)
Definition format_value (v : Value) (w : World) : Result str * World :=
  match v with
  | VStr s => (Ok s, w)
  | _ => py_format v w
  end.

(** An exception inside the [try] statement, with the history as it is by
    then: [except Exception as e] prints and leaves the loop; any other
    exception goes on to the caller, and so does one raised by the [{e}] of
    the handler. *)
Definition except_Exception (e : PyExc) (conversation_history : list str)
    (context : str) (out : list Printed) (w : World)
    : Result (list str * str * list Printed) * World :=
  if is_Exception (exc_class e)
  then
    match exc_str e w with
    | (Ok text, w) =>
        (Ok (conversation_history, context, out ++ [ErrorExecutingTool text]), w)
                                                                        (* break *)
    | (Raise e', w) => (Raise e', w)
    end
  else (Raise e, w).

(** The turns of [for turn in range(max_turns)] that are still to run, on
    the conversation history, the last context built and what was printed so
    far. *)
Fixpoint turns (todo : list nat) (conversation_history : list str) (context : str)
    (out : list Printed) (w : World)
    : Result (list str * str * list Printed) * World :=
  match todo with
  | [] => (Ok (conversation_history, context, out), w)
  | turn :: todo' =>
      let out := out ++ [TurnHeader (Z.of_nat turn + 1)] in
      (* Build conversation context by appending history to base prompt *)
      let context :=
        fold_left (fun context hist => context ++ hist ++ [newline])
                  conversation_history base_prompt in
      (* Get model response *)
      let '(response, w) := generate context w in
      let out := out ++ [ModelResponse response] in
      (* Extract tool call *)
      match extract_tool_call response with
      | Some (c :: code) =>
          let tool_code := c :: code in
          let out := out ++ [Executing tool_code] in
          let '(globals_dict, w) := local_vars w in
          match capture_code_output World Namespace new_dict py_eval py_exec exc_str
                  tool_code (Some globals_dict) None w with
          | (Raise e, w) => except_Exception e conversation_history context out w
          | (Ok tool_result, w) =>
              let conversation_history :=
                conversation_history ++ [tool_code_turn tool_code] in
              match format_value tool_result w with
              | (Raise e, w) => except_Exception e conversation_history context out w
              | (Ok text, w) =>
                  let conversation_history :=
                    conversation_history ++ [tool_output_turn text] ++ [model_turn] in
                  (* print(f"Tool result: {tool_result}") *)
                  match format_value tool_result w with
                  | (Raise e, w) =>
                      except_Exception e conversation_history context out w
                  | (Ok text', w) =>
                      turns todo' conversation_history context
                        (out ++ [ToolResult text']) w
                  end
              end
          end
      | _ =>
          (* no match, or an empty payload *)
          (Ok (conversation_history ++ [response], context,
               out ++ [NoToolCallFound]), w)                            (* break *)
      end
  end.

Definition max_turns : nat := 5.

(** The conversation history at the end and everything printed.  [context]
    has no value before the first turn; [max_turns] is 5, so it has one when
    it is printed. *)
Definition automated_tool_calling_example (w : World)
    : Result (list str * list Printed) * World :=
  match turns (seq 0 max_turns) [] [] [] w with
  | (Ok (conversation_history, context, out), w) =>
      (Ok (conversation_history,
           out ++ [FinalConversation; Line context] ++ map Line conversation_history),
       w)
  | (Raise e, w) => (Raise e, w)
  end.

End AutomatedToolCalling.

(** ** [encode_instruction] *)

Definition encode_instruction (tokenizer : Tokenizer) (text : str) : list (list Z) :=
  [[token_to_id tokenizer (py "[INST]")];
   tokenize tokenizer text;
   [token_to_id tokenizer (py "[/INST]")]].

End GuideRest.

(** * The flight-booking loop of the function-calling guide *)

Module FlightAgent.
Import FunctionCalling.

(** What [mistral.generate] returns: the dictionary with the arrays
    [token_ids] and [padding_mask], each kept as the list of its rows. *)
Record Generated : Type := mkGenerated {
  out_token_ids : list (list Z);
  out_padding_mask : list (list bool)
}.

(** What the loop prints. *)
Inductive Shown : Type :=
| ResponseText (text : str)       (* print(response_text, f"\n\n\n{'-'*100}\n\n") *)
| ParserLine (line : str)         (* printed inside try_parse_funccall *)
| MaximumIterationsReached.       (* "Maximum iterations reached. ..." *)

(** [a[0]] on the rows of a two-dimensional array. *)
Definition first_row {A : Type} (a : list (list A)) : Result (list A) :=
  match a with
  | row :: _ => Ok row
  | [] => Raise (mkExc OtherException (py "index 0 is out of bounds"))
  end.

(** The position of the first [true], counted from [from]. *)
Fixpoint first_true (l : list bool) (from : nat) : option nat :=
  match l with
  | [] => None
  | b :: l' => if b then Some from else first_true l' (S from)
  end.

(** [np.argmax(~mask)]: the position, in the flattened array, of the first
    entry of [mask] that is false; 0 when there is none; an empty array has
    no argmax. *)
Definition argmax_not (mask : list (list bool)) : Result nat :=
  match concat mask with
  | [] => Raise (mkExc ValueError (py "attempt to get an argmax of an empty sequence"))
  | flat =>
      match first_true (map negb flat) 0 with
      | Some i => Ok i
      | None => Ok 0
      end
  end.

(** [isinstance(call, dict) and call.get("name") == "book_flight"] *)
Definition names_book_flight (call : Value) : bool :=
  match call with
  | VDict entries =>
      match dict_get entries (py "name") with
      | Some (VStr name) => str_eqb name (py "book_flight")
      | _ => false
      end
  | _ => false
  end.

Definition max_iterations : nat := 10.

Section Agent.

Variable tokenizer : Tokenizer.
Variable json : JsonCodec.
Variable random : RandomGen.
Variable tools : Tools.

(** The language model:
    [mistral.generate(batch, max_length=8192, stop_token_ids=[2], strip_prompt=True)]. *)
Variable Model : Type.
Variable generate : Batch -> Model -> Generated * Model.

(** The variables of the loop, the two generators and what was printed. *)
Record AgentState : Type := mkAgentState {
  messages : list (list Z);
  flight_booked : bool;
  iteration_count : nat;
  rng : Rng random;
  model : Model;
  shown : list Shown
}.

(** The check "for tool calls" that tracks the booking status. *)
Definition booking_status (row : list Z) (flight_booked : bool) : Result bool :=
  let tool_call_id := token_to_id tokenizer (py "[TOOL_CALLS]") in
  match np_where_eq row tool_call_id 0 with
  | [] => Ok flight_booked
  | pos :: _ =>
      match raw_decode json (detokenize tokenizer (skipn (pos + 1) row)) with
      | Raise e =>
          if parser_catches (exc_class e) then Ok flight_booked   (* pass *)
          else Raise e
      | Ok (VList tool_calls, _) =>
          Ok (flight_booked || existsb names_book_flight tool_calls)
      | Ok _ => Ok flight_booked
      end
  end.

(** The body of the [while] loop. *)
Definition iteration (st : AgentState) : Result AgentState :=
  let iteration_count := S (iteration_count st) in
  (* query the model *)
  match preprocess (messages st) default_sequence_length with
  | Raise e => Raise e
  | Ok batch =>
      let '(res, model) := generate batch (model st) in
      (* output the model's response *)
      match argmax_not (out_padding_mask res) with
      | Raise e => Raise e
      | Ok stop =>
          match first_row (out_token_ids res) with
          | Raise e => Raise e
          | Ok row =>
              let response_text := detokenize tokenizer (firstn stop row) in
              let shown := shown st ++ [ResponseText response_text] in
              (* Check for tool calls and track booking status *)
              match booking_status row (flight_booked st) with
              | Raise e => Raise e
              | Ok flight_booked =>
                  (* perform tool calls and extend `messages` *)
                  match try_parse_funccall tokenizer json random tools row (rng st) with
                  | (Ok extension, g, lines) =>
                      Ok (mkAgentState (messages st ++ extension) flight_booked
                            iteration_count g model
                            (shown ++ map ParserLine lines))
                  | (Raise e, _, _) => Raise e
                  end
              end
          end
      end
  end.

(** [while not flight_booked and iteration_count < max_iterations].  [None]
    means the fuel ran out before the condition turned false. *)
Fixpoint agent_loop (fuel : nat) (st : AgentState) : option (Result AgentState) :=
  if negb (flight_booked st) && (iteration_count st <? max_iterations) then
    match fuel with
    | O => None
    | S fuel' =>
        match iteration st with
        | Ok st' => agent_loop fuel' st'
        | Raise e => Some (Raise e)
        end
    end
  else Some (Ok st).

(** The loop from its initial variables, then the closing message. *)
Definition flight_agent (initial_messages : list (list Z)) (g : Rng random) (m : Model)
    : option (Result AgentState) :=
  match agent_loop max_iterations (mkAgentState initial_messages false 0 g m []) with
  | Some (Ok st) =>
      if flight_booked st then Some (Ok st)
      else Some (Ok (mkAgentState (messages st) (flight_booked st)
                       (iteration_count st) (rng st) (model st)
                       (shown st ++ [MaximumIterationsReached])))
  | other => other
  end.

End Agent.

Arguments mkAgentState {random Model} messages flight_booked iteration_count rng model shown.
Arguments messages {random Model} a.
Arguments flight_booked {random Model} a.
Arguments iteration_count {random Model} a.
Arguments rng {random Model} a.
Arguments model {random Model} a.
Arguments shown {random Model} a.

End FlightAgent.

(** * Vocabulary of the statements *)

Module Vocabulary.
Import SequenceBuilder.

(** ** Sequence Builder *)

(** [max(0, label_idx - MAX_CONTEXT_LENGTH)] *)
Definition start_idx (MAX label_idx : nat) : nat :=
  Z.to_nat (Z.max 0 (Z.of_nat label_idx - Z.of_nat MAX)).

(** The order of a user's sequence. *)
Definition timestamp_le (a b : Movie) : Prop := (timestamp a <= timestamp b)%Z.

(** The dictionary made from one row. *)
Definition movie_of_row (r : Row) : Movie :=
  mkMovie (row_movie_id r) (row_timestamp r) (row_rating r).

(** The rows of one user, in input order. *)
Definition rows_of (u : Z) (ratings_df : list Row) : list Movie :=
  map movie_of_row (filter (fun r => Z.eqb (row_user_id r) u) ratings_df).

(** The dictionary of [get_movie_sequence_per_user] before its lists are
    sorted. *)
Definition group_rows (ratings_df : list Row) : Sequences :=
  fold_left
    (fun sequences r => dict_append sequences (row_user_id r) (movie_of_row r))
    ratings_df [].

(** The entries of a context that are not the sentinel 0. *)
Definition non_sentinel (context : list Z) : list Z :=
  filter (fun movie => negb (Z.eqb movie 0)) context.

(** A context is left-padded when the sentinel entries come first and the
    true history after them. *)
Definition left_padded (MAX : nat) (history context : list Z) : Prop :=
  context = repeat 0%Z (MAX - length history) ++ history.

(** ** Function calling *)

(** Only whitespace (or nothing at all). *)
Definition blank (s : FunctionCalling.str) : bool :=
  forallb FunctionCalling.isspace s.



Import FunctionCalling.

(** The payload [print(f(1,2))]. *)
Definition print_call : str := py "print(f(1,2))".

(** The text holds a block fenced with [```tool_code]: the opening fence,
    optional whitespace, a line break, a payload, a line break and the
    closing fence. *)
Definition has_tool_code_block (text : str) : Prop :=
  exists pre ws payload post : str,
    blank ws = true /\
    text = pre ++ fence_open ++ ws ++ [newline] ++ payload ++ fence_close ++ post.

(** The language of a pattern. *)
Inductive matches : Regex.regex -> str -> Prop :=
| matches_Chr (c : ascii) : matches (Regex.Chr c) [c]
| matches_Cat (r1 r2 : Regex.regex) (s1 s2 : str) :
    matches r1 s1 -> matches r2 s2 -> matches (Regex.Cat r1 r2) (s1 ++ s2)
| matches_Greedy (cls : ascii -> bool) (s : str) :
    forallb cls s = true -> matches (Regex.Greedy cls) s
| matches_Lazy (cls : ascii -> bool) (s : str) :
    forallb cls s = true -> matches (Regex.Lazy cls) s
| matches_Group (r : Regex.regex) (s : str) :
    matches r s -> matches (Regex.Group r) s
| matches_Eps : matches Regex.Eps [].

(** The decoded payload is not a list of objects. *)
Definition not_list_of_dicts (v : Value) : Prop :=
  match v with
  | VList items => forallb is_dict items = false
  | _ => True
  end.

(** A call object the parser cannot carry out: it has no [name]; or its
    [name] cannot be looked up; or it names a registered tool and has no
    [arguments], or [arguments] that are not an object, or arguments the
    tool rejects with an exception the parser catches. *)
Inductive malformed_call (tools : Tools) (call : list (str * Value)) : Prop :=
| missing_name :
    dict_get call (py "name") = None -> malformed_call tools call
| unhashable_name (v : Value) :
    dict_get call (py "name") = Some v -> hashable v = false ->
    malformed_call tools call
| missing_arguments (name : str) (tool : Tool) :
    dict_get call (py "name") = Some (VStr name) ->
    tools_get tools name = Some tool ->
    dict_get call (py "arguments") = None -> malformed_call tools call
| arguments_not_an_object (name : str) (tool : Tool) (a : Value) :
    dict_get call (py "name") = Some (VStr name) ->
    tools_get tools name = Some tool ->
    dict_get call (py "arguments") = Some a -> is_dict a = false ->
    malformed_call tools call
| arguments_rejected (name : str) (tool : Tool) (kwargs : list (str * Value)) (e : PyExc) :
    dict_get call (py "name") = Some (VStr name) ->
    tools_get tools name = Some tool ->
    dict_get call (py "arguments") = Some (VDict kwargs) ->
    tool kwargs = Raise e -> parser_catches (exc_class e) = true ->
    malformed_call tools call.

End Vocabulary.


(** * Vocabulary for the two conversation loops *)

Module LoopVocabulary.
Import FunctionCalling GuideRest FlightAgent.






(** Whatever [f] raises is outside [Exception]. *)
Definition raises_no_Exception {A World : Type}
    (f : A -> World -> Result str * World) : Prop :=
  forall a w e w', f a w = (Raise e, w') -> is_Exception (exc_class e) = false.

(** How many responses the flight-booking loop has printed. *)
Definition responses_shown (shown : list Shown) : nat :=
  length (filter (fun s => match s with ResponseText _ => true | _ => false end) shown).

End LoopVocabulary.

(** * Stand-ins for the language models *)

Module LoopDemo.
Import FunctionCalling GuideRest FlightAgent Demo.











(** A model for the flight-booking loop; its state counts the calls.  It
    first answers in plain text, then calls [book_flight] without
    [arguments].  Two padding positions follow each response. *)
Definition demo_responses (m : nat) : list Z :=
  match m with
  | O => tokenize demo_tokenizer (py "One moment.")
  | _ => demo_response "" (json_text "[{'name':'book_flight'}]")
  end.

Definition demo_model (batch : Batch) (m : nat) : Generated * nat :=
  let row := demo_responses m in
  (mkGenerated [row ++ [0; 0]%Z] [repeat true (length row) ++ [false; false]], S m).

Definition demo_messages : list (list Z) :=
  [[1%Z]] ++ encode_instruction demo_tokenizer (py "Book the flight.").

Definition demo_agent_state (messages : list (list Z)) (m : nat)
    : AgentState demo_random nat :=
  mkAgentState (random := demo_random) messages false 0 0 m [].

(** The same responses, with no padding position after them. *)
Definition demo_full_model (batch : Batch) (m : nat) : Generated * nat :=
  let row := demo_responses m in
  (mkGenerated [row] [repeat true (length row)], S m).

(** The state one iteration leaves. *)
Definition demo_after (generate : Batch -> nat -> Generated * nat)
    (st : AgentState demo_random nat) : AgentState demo_random nat :=
  match iteration demo_tokenizer demo_json demo_random demo_tools nat generate st with
  | Ok st' => st'
  | Raise _ => st
  end.

Definition demo_flight : option (Result (AgentState demo_random nat)) :=
  flight_agent demo_tokenizer demo_json demo_random demo_tools nat demo_model
    demo_messages 0 0.

Definition demo_final_state : AgentState demo_random nat :=
  match demo_flight with
  | Some (Ok st) => st
  | _ => demo_agent_state [] 0
  end.

End LoopDemo.
(** * Sequence Builder: lemmas *)

Module SequenceBuilderFacts.
Import SequenceBuilder Vocabulary.

(** ** The padding loop *)

Lemma padding_loop_long (MAX fuel : nat) (context : list Movie) :
  MAX <= length context -> padding_loop MAX fuel context = context.
Proof.
  intros H. destruct fuel as [|fuel]; simpl; trivial.
  destruct (Nat.ltb_spec (length context) MAX); trivial; lia.
Qed.

Lemma padding_loop_appends (MAX fuel : nat) (context : list Movie) :
  MAX - length context <= fuel ->
  padding_loop MAX fuel context = context ++ repeat PAD (MAX - length context).
Proof.
  revert context. induction fuel as [|fuel IH]; intros context Hf; simpl.
  - replace (MAX - length context) with 0 by lia. simpl. now rewrite app_nil_r.
  - destruct (Nat.ltb_spec (length context) MAX) as [Hlt|Hge].
    + rewrite IH by (rewrite length_app; simpl; lia).
      rewrite length_app; simpl.
      replace (MAX - length context) with (S (MAX - (length context + 1))) by lia.
      simpl. now rewrite <- app_assoc.
    + replace (MAX - length context) with 0 by lia. simpl. now rewrite app_nil_r.
Qed.

(** The loop leaves through its condition: with the fuel the builder gives
    it, [len(context) < MAX_CONTEXT_LENGTH] is false at the end. *)
Lemma padding_loop_exits (MAX : nat) (context : list Movie) :
  (length (padding_loop MAX MAX context) <? MAX) = false.
Proof.
  apply Nat.ltb_ge.
  destruct (Nat.le_gt_cases MAX (length context)) as [Hge|Hlt].
  - now rewrite padding_loop_long.
  - rewrite padding_loop_appends by lia.
    rewrite length_app, repeat_length. lia.
Qed.

(** ** Slices *)

Lemma slice_length {A : Type} (l : list A) (start stop : nat) :
  stop <= length l -> length (slice l start stop) = stop - start.
Proof.
  intros H. unfold slice. rewrite length_firstn, length_skipn. lia.
Qed.

Lemma start_idx_eq (MAX label_idx : nat) : start_idx MAX label_idx = label_idx - MAX.
Proof. unfold start_idx. lia. Qed.

(** The context of an example, spelled out: the window of the sequence that
    ends just before the label, followed by the padding. *)
Lemma example_at_context (MAX : nat) (sequence : list Movie) (label_idx : nat) :
  label_idx <= length sequence ->
  context_movie_id (example_at MAX sequence label_idx) =
    map movie_id (slice sequence (label_idx - MAX) label_idx)
      ++ repeat 0%Z (MAX - label_idx).
Proof.
  intros H. unfold example_at. cbn [context_movie_id].
  fold (start_idx MAX label_idx). rewrite start_idx_eq.
  assert (Hlen : length (slice sequence (label_idx - MAX) label_idx) = label_idx - (label_idx - MAX))
    by now apply slice_length.
  rewrite padding_loop_appends by lia.
  rewrite map_app, Hlen. f_equal.
  replace (MAX - (label_idx - (label_idx - MAX))) with (MAX - label_idx) by lia.
  induction (MAX - label_idx); simpl; congruence.
Qed.

(** ** The loop over one user's sequence *)

Lemma fold_user_step_train (MAX : nat) (sequence : list Movie) (idxs : list nat)
    (train test : list Example) :
  (forall i, In i idxs -> i <> length sequence - 1) ->
  fold_left (user_step MAX sequence) idxs (train, test) =
    (train ++ map (example_at MAX sequence) idxs, test).
Proof.
  revert train. induction idxs as [|i idxs IH]; intros train Hne; simpl.
  - now rewrite app_nil_r.
  - destruct (Nat.eqb_spec i (length sequence - 1)) as [E|_].
    + exfalso. apply (Hne i); simpl; auto.
    + rewrite IH by (intros j Hj; apply Hne; simpl; auto).
      now rewrite <- app_assoc.
Qed.

Lemma generate_examples_from_user_sequence_eq (MAX : nat) (sequence : list Movie) :
  2 <= length sequence ->
  generate_examples_from_user_sequence MAX sequence =
    (map (example_at MAX sequence) (seq 1 (length sequence - 2)),
     [example_at MAX sequence (length sequence - 1)]).
Proof.
  intros Hn. unfold generate_examples_from_user_sequence.
  replace (length sequence - 1) with ((length sequence - 2) + 1) at 1 by lia.
  rewrite seq_app, fold_left_app.
  rewrite fold_user_step_train.
  - replace (1 + (length sequence - 2)) with (length sequence - 1) by lia.
    cbn [seq fold_left]. unfold user_step.
    now rewrite Nat.eqb_refl.
  - intros i Hi. apply in_seq in Hi. lia.
Qed.

(** ** The loop over all users *)

Lemma fold_users_step_app (MAX MIN : nat) (l : Sequences) (train test : list Example) :
  fold_left (users_step MAX MIN) l (train, test) =
    (train ++ fst (generate_examples_from_user_sequences MAX MIN l),
     test ++ snd (generate_examples_from_user_sequences MAX MIN l)).
Proof.
  unfold generate_examples_from_user_sequences.
  revert train test. induction l as [|[u s] l IH]; intros train test; simpl.
  - now rewrite !app_nil_r.
  - destruct (length s <? MIN).
    + apply IH.
    + destruct (generate_examples_from_user_sequence MAX s) as [tr te].
      rewrite IH. rewrite (IH tr te). simpl.
      now rewrite !app_assoc.
Qed.

Lemma generate_examples_from_user_sequences_app (MAX MIN : nat) (l1 l2 : Sequences) :
  generate_examples_from_user_sequences MAX MIN (l1 ++ l2) =
    (fst (generate_examples_from_user_sequences MAX MIN l1)
       ++ fst (generate_examples_from_user_sequences MAX MIN l2),
     snd (generate_examples_from_user_sequences MAX MIN l1)
       ++ snd (generate_examples_from_user_sequences MAX MIN l2)).
Proof.
  unfold generate_examples_from_user_sequences at 1.
  rewrite fold_left_app.
  fold (generate_examples_from_user_sequences MAX MIN l1).
  destruct (generate_examples_from_user_sequences MAX MIN l1) as [tr te].
  apply fold_users_step_app.
Qed.

Lemma generate_examples_from_user_sequences_cons (MAX MIN : nat) (u : Z)
    (s : list Movie) (l : Sequences) :
  MIN <= length s ->
  generate_examples_from_user_sequences MAX MIN ((u, s) :: l) =
    (fst (generate_examples_from_user_sequence MAX s)
       ++ fst (generate_examples_from_user_sequences MAX MIN l),
     snd (generate_examples_from_user_sequence MAX s)
       ++ snd (generate_examples_from_user_sequences MAX MIN l)).
Proof.
  intros H. unfold generate_examples_from_user_sequences at 1. simpl.
  destruct (Nat.ltb_spec (length s) MIN); [lia|].
  destruct (generate_examples_from_user_sequence MAX s) as [tr te].
  apply fold_users_step_app.
Qed.

(** ** Sorting by timestamp *)

Lemma insert_by_timestamp_perm (x : Movie) (l : list Movie) :
  Permutation (insert_by_timestamp x l) (x :: l).
Proof.
  induction l as [|y t IH]; simpl; auto.
  destruct (timestamp x <=? timestamp y)%Z; auto.
  rewrite IH. apply perm_swap.
Qed.

Lemma sort_by_timestamp_perm (l : list Movie) : Permutation (sort_by_timestamp l) l.
Proof.
  induction l as [|x l IH]; simpl; auto.
  rewrite insert_by_timestamp_perm. now constructor.
Qed.

Lemma insert_by_timestamp_sorted (x : Movie) (l : list Movie) :
  Sorted timestamp_le l -> Sorted timestamp_le (insert_by_timestamp x l).
Proof.
  induction l as [|y t IH]; intros Hs; simpl.
  - repeat constructor.
  - destruct (Z.leb_spec (timestamp x) (timestamp y)) as [Hle|Hgt].
    + constructor; auto.
    + inversion Hs as [|? ? Hst Hhd]; subst.
      constructor; auto.
      destruct t as [|z t]; simpl.
      * constructor. unfold timestamp_le. lia.
      * destruct (Z.leb_spec (timestamp x) (timestamp z)).
        -- constructor. unfold timestamp_le. lia.
        -- inversion Hhd; subst. now constructor.
Qed.

Lemma sort_by_timestamp_sorted (l : list Movie) :
  StronglySorted timestamp_le (sort_by_timestamp l).
Proof.
  apply Sorted_StronglySorted.
  - intros a b c. unfold timestamp_le. lia.
  - induction l as [|x l IH]; simpl.
    + constructor.
    + now apply insert_by_timestamp_sorted.
Qed.

Lemma sort_by_timestamp_length (l : list Movie) :
  length (sort_by_timestamp l) = length l.
Proof. apply Permutation_length, sort_by_timestamp_perm. Qed.

(** In a sorted sequence the last entry carries the latest timestamp. *)
Lemma sorted_last_latest (s : list Movie) (m : Movie) :
  StronglySorted timestamp_le s -> In m s ->
  (timestamp m <= timestamp (last s PAD))%Z.
Proof.
  induction 1 as [|a l Hl IH Hall]; intros Hin; [easy|].
  destruct l as [|b l'].
  - destruct Hin as [->|[]]. simpl. lia.
  - change (last (a :: b :: l') PAD) with (last (b :: l') PAD).
    destruct Hin as [->|Hin]; [|now apply IH].
    rewrite Forall_forall in Hall. apply Hall.
    destruct (exists_last (l := b :: l')) as (l0 & z & E); [discriminate|].
    rewrite E, last_last. apply in_or_app. right. now left.
Qed.

Lemma get_movie_sequence_per_user_eq (ratings_df : list Row) :
  get_movie_sequence_per_user ratings_df =
    map (fun e => (fst e, sort_by_timestamp (snd e))) (group_rows ratings_df).
Proof.
  unfold get_movie_sequence_per_user, group_rows.
  apply map_ext. now intros [u l].
Qed.

Lemma dict_append_key (g : Sequences) (u : Z) (m : Movie) (k : Z) :
  In k (map fst (dict_append g u m)) <-> k = u \/ In k (map fst g).
Proof.
  induction g as [|[u0 l0] g IH]; simpl.
  - intuition.
  - destruct (Z.eqb_spec u0 u) as [->|Hne]; simpl.
    + intuition.
    + rewrite IH. intuition.
Qed.

Lemma dict_append_NoDup (g : Sequences) (u : Z) (m : Movie) :
  NoDup (map fst g) -> NoDup (map fst (dict_append g u m)).
Proof.
  induction g as [|[u0 l0] g IH]; simpl; intros Hnd.
  - repeat constructor. easy.
  - inversion Hnd as [|? ? Hnin Hnd']; subst.
    destruct (Z.eqb_spec u0 u) as [->|Hne]; simpl.
    + now constructor.
    + constructor; auto.
      rewrite dict_append_key. intros [E|Hin]; auto.
Qed.

Lemma dict_append_In (g : Sequences) (u : Z) (m : Movie) (u' : Z) (l' : list Movie) :
  NoDup (map fst g) ->
  In (u', l') (dict_append g u m) ->
  (u' <> u /\ In (u', l') g) \/
  (u' = u /\ exists l, In (u, l) g /\ l' = l ++ [m]) \/
  (u' = u /\ ~ In u (map fst g) /\ l' = [m]).
Proof.
  induction g as [|[u0 l0] g IH]; simpl; intros Hnd Hin.
  - destruct Hin as [E|[]]. inversion E; subst. right; right. intuition.
  - inversion Hnd as [|? ? Hnin Hnd']; subst.
    destruct (Z.eqb_spec u0 u) as [->|Hne].
    + destruct Hin as [E|Hin].
      * inversion E; subst. right; left. split; trivial. exists l0. auto.
      * left. split; auto. intros ->. apply Hnin.
        change u with (fst (u, l')). now apply in_map.
    + destruct Hin as [E|Hin].
      * inversion E; subst. left. auto.
      * destruct (IH Hnd' Hin) as [[? ?]|[[-> (l & ? & ?)]|[-> [? ?]]]].
        -- left. auto.
        -- right; left. split; trivial. exists l. auto.
        -- right; right. intuition.
Qed.

Lemma rows_of_app (u : Z) (rows : list Row) (r : Row) :
  rows_of u (rows ++ [r]) =
    rows_of u rows ++ (if Z.eqb (row_user_id r) u then [movie_of_row r] else []).
Proof.
  unfold rows_of. rewrite filter_app, map_app. simpl.
  now destruct (Z.eqb (row_user_id r) u).
Qed.

Lemma group_rows_spec (ratings_df : list Row) :
  NoDup (map fst (group_rows ratings_df)) /\
  (forall u l, In (u, l) (group_rows ratings_df) ->
     l = rows_of u ratings_df /\ l <> []) /\
  (forall r, In r ratings_df -> In (row_user_id r) (map fst (group_rows ratings_df))).
Proof.
  induction ratings_df as [|r rows IH] using rev_ind.
  - repeat split; try constructor; easy.
  - destruct IH as (Hnd & Hin & Hkeys).
    unfold group_rows. rewrite fold_left_app. fold (group_rows rows). simpl.
    repeat split.
    + now apply dict_append_NoDup.
    + apply dict_append_In in H; trivial. rewrite rows_of_app.
      destruct H as [[Hne H]|[[-> (l0 & H & ->)]|[-> [Hnin ->]]]].
      * destruct (Z.eqb_spec (row_user_id r) u); [congruence|].
        rewrite app_nil_r. now apply Hin.
      * rewrite Z.eqb_refl. f_equal. now apply Hin.
      * rewrite Z.eqb_refl.
        assert (E : rows_of (row_user_id r) rows = []).
        { unfold rows_of. destruct (filter _ rows) as [|r0 t] eqn:F; trivial.
          exfalso. apply Hnin.
          assert (Hr0 : In r0 (filter (fun r1 => Z.eqb (row_user_id r1) (row_user_id r)) rows))
            by (rewrite F; now left).
          apply filter_In in Hr0. destruct Hr0 as [Hr0 Heq].
          apply Z.eqb_eq in Heq. rewrite <- Heq. now apply Hkeys. }
        now rewrite E.
    + apply dict_append_In in H; trivial.
      destruct H as [[_ H]|[[_ (l0 & _ & ->)]|[_ [_ ->]]]].
      * now apply Hin in H.
      * now destruct l0.
      * discriminate.
    + intros r0 Hr0. apply dict_append_key.
      apply in_app_or in Hr0. destruct Hr0 as [Hr0|[->|[]]]; auto.
Qed.

(** Every entry of the dictionary [get_movie_sequence_per_user] returns is
    the stable timestamp sort of that user's rows; user ids are not
    repeated. *)
Lemma get_movie_sequence_per_user_spec (ratings_df : list Row) (u : Z) (s : list Movie) :
  In (u, s) (get_movie_sequence_per_user ratings_df) ->
  s = sort_by_timestamp (rows_of u ratings_df) /\ s <> [].
Proof.
  rewrite get_movie_sequence_per_user_eq. intros H.
  apply in_map_iff in H. destruct H as ([u0 l] & E & Hin). simpl in E.
  inversion E; subst.
  destruct (group_rows_spec ratings_df) as (_ & Hspec & _).
  destruct (Hspec _ _ Hin) as [-> Hne]. split; trivial.
  intros E0. apply Hne.
  apply length_zero_iff_nil. rewrite <- sort_by_timestamp_length, E0. reflexivity.
Qed.

Lemma get_movie_sequence_per_user_NoDup (ratings_df : list Row) :
  NoDup (map fst (get_movie_sequence_per_user ratings_df)).
Proof.
  rewrite get_movie_sequence_per_user_eq, map_map. simpl.
  apply group_rows_spec.
Qed.

(** ** Where the produced examples come from *)

Lemma user_examples_origin (MAX : nat) (s : list Movie) (e : Example) :
  In e (fst (generate_examples_from_user_sequence MAX s)
          ++ snd (generate_examples_from_user_sequence MAX s)) ->
  exists i, 1 <= i < length s /\ e = example_at MAX s i.
Proof.
  destruct (Nat.le_gt_cases 2 (length s)) as [Hn|Hn].
  - rewrite generate_examples_from_user_sequence_eq by trivial. simpl.
    intros H. apply in_app_or in H. destruct H as [H|[<-|[]]].
    + apply in_map_iff in H. destruct H as (i & <- & Hi).
      apply in_seq in Hi. exists i. split; [lia|trivial].
    + exists (length s - 1). split; [lia|trivial].
  - unfold generate_examples_from_user_sequence.
    replace (length s - 1) with 0 by lia. simpl. easy.
Qed.

Lemma examples_origin (MAX MIN : nat) (l : Sequences) (e : Example) :
  In e (fst (generate_examples_from_user_sequences MAX MIN l)
          ++ snd (generate_examples_from_user_sequences MAX MIN l)) ->
  exists u s i,
    In (u, s) l /\ MIN <= length s /\ 1 <= i < length s /\ e = example_at MAX s i.
Proof.
  induction l as [|[u s] l IH].
  - simpl. easy.
  - destruct (Nat.le_gt_cases MIN (length s)) as [Hn|Hn].
    + rewrite generate_examples_from_user_sequences_cons by trivial. simpl.
      intros H.
      assert (H' : In e (fst (generate_examples_from_user_sequence MAX s)
                           ++ snd (generate_examples_from_user_sequence MAX s))
                   \/ In e (fst (generate_examples_from_user_sequences MAX MIN l)
                           ++ snd (generate_examples_from_user_sequences MAX MIN l))).
      { rewrite !in_app_iff in *. tauto. }
      destruct H' as [H'|H'].
      * apply user_examples_origin in H'. destruct H' as (i & Hi & ->).
        exists u, s, i. simpl. auto.
      * destruct (IH H') as (u' & s' & i & Hin & Hlen & Hi & ->).
        exists u', s', i. simpl. auto.
    + unfold generate_examples_from_user_sequences at 1 2. simpl.
      destruct (Nat.ltb_spec (length s) MIN) as [_|Hge]; [|lia].
      fold (generate_examples_from_user_sequences MAX MIN l).
      intros H. destruct (IH H) as (u' & s' & i & Hin & Hlen & Hi & ->).
      exists u', s', i. simpl. auto.
Qed.

Lemma example_at_context_length (MAX : nat) (s : list Movie) (i : nat) :
  i <= length s -> length (context_movie_id (example_at MAX s i)) = MAX.
Proof.
  intros Hi. rewrite example_at_context by trivial.
  rewrite length_app, length_map, repeat_length, slice_length by trivial. lia.
Qed.

(** ** Windows of a sequence *)

Lemma slice_snoc {A : Type} (l : list A) (a i : nat) (d : A) :
  a <= i -> i < length l ->
  slice l a (S i) = slice l a i ++ [nth i l d].
Proof.
  intros Ha Hi. unfold slice.
  replace (S i - a) with (S (i - a)) by lia.
  set (t := skipn a l).
  assert (Ht : i - a < length t) by (subst t; rewrite length_skipn; lia).
  replace (nth i l d) with (nth (i - a) t d).
  - clearbody t. revert t Ht. generalize (i - a) as k.
    induction k as [|k IH]; intros [|x t] Ht; simpl in *; try lia; trivial.
    f_equal. apply IH. lia.
  - subst t. rewrite nth_skipn. f_equal. lia.
Qed.

Lemma slice_contiguous {A : Type} (l : list A) (a b : nat) :
  a <= b -> l = firstn a l ++ slice l a b ++ skipn b l.
Proof.
  intros Hab. unfold slice.
  replace (skipn b l) with (skipn (b - a) (skipn a l))
    by (rewrite skipn_skipn; f_equal; lia).
  now rewrite firstn_skipn, firstn_skipn.
Qed.

Lemma slice_incl {A : Type} (l : list A) (a b : nat) (x : A) :
  In x (slice l a b) -> In x l.
Proof.
  unfold slice. intros H.
  rewrite <- (firstn_skipn a l). apply in_or_app. right.
  rewrite <- (firstn_skipn (b - a) (skipn a l)). apply in_or_app. now left.
Qed.

Lemma non_sentinel_padded (real : list Z) (k : nat) :
  Forall (fun movie => movie <> 0%Z) real ->
  non_sentinel (real ++ repeat 0%Z k) = real.
Proof.
  intros H. unfold non_sentinel. rewrite filter_app.
  replace (filter _ (repeat 0%Z k)) with (@nil Z)
    by (induction k; simpl; trivial).
  rewrite app_nil_r.
  induction H as [|x l Hx Hl IH]; simpl; trivial.
  destruct (Z.eqb_spec x 0); [contradiction|]. simpl. now f_equal.
Qed.

Lemma sequence_entries_are_rows (ratings_df : list Row) (u : Z) (s : list Movie) (m : Movie) :
  In (u, s) (get_movie_sequence_per_user ratings_df) -> In m s ->
  exists r, In r ratings_df /\ row_user_id r = u /\ m = movie_of_row r.
Proof.
  intros Hus Hm. apply get_movie_sequence_per_user_spec in Hus.
  destruct Hus as [-> _].
  apply (Permutation_in _ (sort_by_timestamp_perm _)) in Hm.
  unfold rows_of in Hm. apply in_map_iff in Hm. destruct Hm as (r & <- & Hr).
  apply filter_In in Hr. destruct Hr as [Hr Hu].
  exists r. repeat split; trivial. now apply Z.eqb_eq.
Qed.

End SequenceBuilderFacts.

(** * Function calling: lemmas *)

Module FunctionCallingFacts.
Import FunctionCalling Vocabulary.

(** ** [strip] *)





(** ** [preprocess] *)

Lemma mask_prefix (k n : nat) :
  k <= n ->
  map (fun i => if (i <? Z.of_nat k)%Z then 1%Z else 0%Z) (np_arange (Z.of_nat n)) =
    repeat 1%Z k ++ repeat 0%Z (n - k).
Proof.
  intros Hk. unfold np_arange. rewrite Nat2Z.id, map_map.
  replace n with (k + (n - k)) at 1 by lia.
  rewrite seq_app, map_app. f_equal.
  - transitivity (map (fun _ : nat => 1%Z) (seq 0 k)).
    + apply map_ext_in. intros i Hi. apply in_seq in Hi.
      destruct (Z.ltb_spec (Z.of_nat i) (Z.of_nat k)); [trivial|lia].
    + now rewrite map_const, length_seq.
  - transitivity (map (fun _ : nat => 0%Z) (seq (0 + k) (n - k))).
    + apply map_ext_in. intros i Hi. apply in_seq in Hi.
      destruct (Z.ltb_spec (Z.of_nat i) (Z.of_nat k)); [lia|trivial].
    + now rewrite map_const, length_seq.
Qed.

(** ** [capture_code_output] *)



Section CaptureFacts.

Variable World : Type.
Variable Namespace : Type.
Variable new_dict : World -> Namespace * World.
Variable py_eval : str -> Namespace -> Namespace -> Buffer -> World -> Run World Value.
Variable py_exec : str -> Namespace -> Namespace -> Buffer -> World -> Run World unit.
Variable exc_str : PyExc -> World -> Result str * World.

Let block := redirected_block World Namespace py_eval py_exec.
Let capture := capture_code_output World Namespace new_dict py_eval py_exec exc_str.


End CaptureFacts.

(** ** Dictionaries *)

Lemma str_eqb_eq (a b : str) : str_eqb a b = true <-> a = b.
Proof.
  unfold str_eqb. destruct (list_eq_dec ascii_dec a b); split; intros; congruence.
Qed.

Lemma str_eqb_refl (a : str) : str_eqb a a = true.
Proof. now apply str_eqb_eq. Qed.

Lemma str_eqb_neq (a b : str) : a <> b -> str_eqb a b = false.
Proof.
  intros H. destruct (str_eqb a b) eqn:E; trivial.
  apply str_eqb_eq in E. contradiction.
Qed.

Lemma dict_get_set_same (d : list (str * Value)) (k : str) (v : Value) :
  dict_get (dict_set d k v) k = Some v.
Proof.
  induction d as [|[k0 v0] d IH]; simpl.
  - now rewrite str_eqb_refl.
  - destruct (str_eqb k0 k) eqn:E; simpl; rewrite E; trivial.
Qed.

Lemma dict_get_set_other (d : list (str * Value)) (k k' : str) (v : Value) :
  k <> k' -> dict_get (dict_set d k v) k' = dict_get d k'.
Proof.
  intros Hne. induction d as [|[k0 v0] d IH]; simpl.
  - now rewrite str_eqb_neq.
  - destruct (str_eqb k0 k) eqn:E; simpl.
    + apply str_eqb_eq in E. subst k0. now rewrite str_eqb_neq.
    + now rewrite IH.
Qed.

(** ** [random.choices] and the loop over the calls *)

Section ParserFacts.

Variable tokenizer : Tokenizer.
Variable json : JsonCodec.
Variable random : RandomGen.
Variable tools : Tools.



Lemma call_loop_app (l1 l2 : list Value) (res : list (list Z)) (g : Rng random) :
  call_loop tokenizer json random tools (l1 ++ l2) res g =
    match call_loop tokenizer json random tools l1 res g with
    | (Ok res', g') => call_loop tokenizer json random tools l2 res' g'
    | (Raise e, g') => (Raise e, g')
    end.
Proof.
  revert res g. induction l1 as [|call l1 IH]; intros res g; cbn [app call_loop];
    [reflexivity|].
  destruct (choices random id_alphabet 9 g) as [call_id g1].
  destruct call as [| | | | | |entries|]; try reflexivity.
  destruct (dict_get (dict_set entries (py "id") (VStr call_id)) (py "name"))
    as [name|]; [|reflexivity].
  destruct (negb (hashable name)); [reflexivity|].
  destruct (match name with VStr n => tools_get tools n | _ => None end) as [tool|];
    [|apply IH].
  destruct (dict_get (dict_set entries (py "id") (VStr call_id)) (py "arguments"))
    as [a|]; [|reflexivity].
  destruct a as [| | | | |? |kwargs|]; try reflexivity.
  destruct (tool kwargs) as [content|]; [|reflexivity].
  destruct (dict_get (dict_set entries (py "id") (VStr call_id)) (py "id"))
    as [id|]; [|reflexivity].
  destruct (dumps json (VDict [(py "content", content); (py "call_id", id)]));
    [apply IH|reflexivity].
Qed.

(** A malformed call makes the loop raise an exception the parser
    catches. *)
Lemma call_loop_malformed (call : list (str * Value)) (rest : list Value)
    (res : list (list Z)) (g : Rng random) :
  malformed_call tools call ->
  exists e g',
    call_loop tokenizer json random tools (VDict call :: rest) res g = (Raise e, g') /\
    parser_catches (exc_class e) = true.
Proof.
  intros Hbad. cbn [call_loop].
  destruct (choices random id_alphabet 9 g) as [call_id g1].
  assert (Hname : dict_get (dict_set call (py "id") (VStr call_id)) (py "name")
                  = dict_get call (py "name"))
    by (apply dict_get_set_other; discriminate).
  assert (Hargs : dict_get (dict_set call (py "id") (VStr call_id)) (py "arguments")
                  = dict_get call (py "arguments"))
    by (apply dict_get_set_other; discriminate).
  rewrite Hname, Hargs, dict_get_set_same.
  destruct Hbad as [H|v H Hh|name tool H Ht Ha|name tool a H Ht Ha Hd
                    |name tool kwargs e H Ht Ha He Hc]; rewrite H.
  - eexists _, _. split; reflexivity.
  - rewrite Hh. cbn [negb]. eexists _, _. split; reflexivity.
  - cbn [hashable negb]. rewrite Ht, Ha. eexists _, _. split; reflexivity.
  - cbn [hashable negb]. rewrite Ht, Ha.
    destruct a; try discriminate; eexists _, _; split; reflexivity.
  - cbn [hashable negb]. rewrite Ht, Ha, He. eexists _, _. split; [reflexivity|assumption].
Qed.

End ParserFacts.

End FunctionCallingFacts.

(** * The pattern matcher: lemmas *)

Module RegexFacts.
Import FunctionCalling Vocabulary FunctionCallingFacts.
Import Regex.

(** ** Soundness: a successful run consumed a word of the pattern *)

Section Soundness.

Variable R : Type.

Lemma greedy_sound (cls : ascii -> bool) (s : str) (k : str -> option R) (res : R) :
  greedy R cls s k = Some res ->
  exists s1 s2, s = s1 ++ s2 /\ forallb cls s1 = true /\ k s2 = Some res.
Proof.
  induction s as [|c s IH]; simpl.
  - intros H. exists [], []. auto.
  - destruct (cls c) eqn:Hc.
    + destruct (greedy R cls s k) as [r|] eqn:Hg.
      * intros E. inversion E; subst r.
        destruct (IH eq_refl) as (s1 & s2 & -> & Hs1 & Hk).
        exists (c :: s1), s2. simpl. rewrite Hc. auto.
      * intros Hk. exists [], (c :: s). auto.
    + intros Hk. exists [], (c :: s). auto.
Qed.

Lemma lazy_sound (cls : ascii -> bool) (s : str) (k : str -> option R) (res : R) :
  lazy R cls s k = Some res ->
  exists s1 s2, s = s1 ++ s2 /\ forallb cls s1 = true /\ k s2 = Some res.
Proof.
  induction s as [|c s IH]; simpl.
  - destruct (k []) eqn:Hk; [|discriminate].
    intros E. inversion E; subst. exists [], []. auto.
  - destruct (k (c :: s)) eqn:Hk.
    + intros E. inversion E; subst. exists [], (c :: s). auto.
    + destruct (cls c) eqn:Hc; [|discriminate].
      intros H. destruct (IH H) as (s1 & s2 & -> & Hs1 & Hk2).
      exists (c :: s1), s2. simpl. rewrite Hc. auto.
Qed.

Lemma run_sound (r : regex) :
  forall (s : str) (g : option str) (k : str -> option str -> option R) (res : R),
    run R r s g k = Some res ->
    exists s1 s2 g', s = s1 ++ s2 /\ matches r s1 /\ k s2 g' = Some res.
Proof.
  induction r as [c|r1 IH1 r2 IH2|cls|cls|r IH|]; intros s g k res; simpl.
  - destruct s as [|c' s']; [discriminate|].
    destruct (Ascii.eqb_spec c c') as [<-|]; [|discriminate].
    intros H. exists [c], s', g. repeat split; trivial. constructor.
  - intros H. apply IH1 in H. destruct H as (s1 & s2 & g1 & -> & Hm1 & H).
    apply IH2 in H. destruct H as (s3 & s4 & g2 & -> & Hm2 & H).
    exists (s1 ++ s3), s4, g2. rewrite app_assoc. repeat split; trivial.
    now constructor.
  - intros H. apply greedy_sound in H. destruct H as (s1 & s2 & -> & Hs1 & H).
    exists s1, s2, g. repeat split; trivial. now constructor.
  - intros H. apply lazy_sound in H. destruct H as (s1 & s2 & -> & Hs1 & H).
    exists s1, s2, g. repeat split; trivial. now constructor.
  - intros H. apply IH in H. destruct H as (s1 & s2 & g1 & -> & Hm & H).
    eexists s1, s2, _. repeat split; [now constructor|exact H].
  - intros H. exists [], s, g. repeat split; trivial. constructor.
Qed.

End Soundness.

Lemma search_sound (r : regex) (s : str) (g : option str) :
  search r s = Some g ->
  exists pre s1 s2, s = pre ++ s1 ++ s2 /\ matches r s1.
Proof.
  induction s as [|c s IH]; simpl.
  - destruct (match_here r []) as [g0|] eqn:Hm; [|discriminate].
    intros _. apply run_sound in Hm. destruct Hm as (s1 & s2 & _ & E & Hm & _).
    exists [], s1, s2. auto.
  - destruct (match_here r (c :: s)) as [g0|] eqn:Hm.
    + intros _. apply run_sound in Hm. destruct Hm as (s1 & s2 & _ & E & Hm & _).
      exists [], s1, s2. auto.
    + intros H. destruct (IH H) as (pre & s1 & s2 & -> & Hm').
      exists (c :: pre), s1, s2. auto.
Qed.

Lemma matches_literal (l s : str) : matches (literal l) s -> s = l.
Proof.
  revert s. induction l as [|c l IH]; intros s H; simpl in H.
  - now inversion H.
  - inversion H as [|? ? s1 s2 H1 H2| | | |]; subst.
    inversion H1; subst. simpl. f_equal. now apply IH.
Qed.

Lemma matches_tool_call_pattern (s : str) :
  matches tool_call_pattern s ->
  exists ws payload,
    blank ws = true /\ s = fence_open ++ ws ++ [newline] ++ payload ++ fence_close.
Proof.
  unfold tool_call_pattern. intros H.
  inversion H as [|? ? s1 t1 H1 H2| | | |]; subst. clear H.
  apply (matches_literal fence_open) in H1. subst s1.
  inversion H2 as [|? ? ws t2 Hws H3| | | |]; subst. clear H2.
  inversion Hws; subst.
  inversion H3 as [|? ? nl t3 Hnl H4| | | |]; subst. clear H3.
  inversion Hnl; subst.
  inversion H4 as [|? ? payload t4 Hp H5| | | |]; subst. clear H4.
  apply (matches_literal fence_close) in H5. subst t4.
  exists ws, payload. split; trivial.
Qed.

(** What [extract_tool_call] finds is a fenced block. *)
Lemma extract_tool_call_sound (text payload : str) :
  extract_tool_call text = Some payload -> has_tool_code_block text.
Proof.
  unfold extract_tool_call.
  destruct (search tool_call_pattern text) as [g|] eqn:Hs; [|discriminate].
  intros _. apply search_sound in Hs. destruct Hs as (pre & s1 & s2 & -> & Hm).
  apply matches_tool_call_pattern in Hm. destruct Hm as (ws & p & Hws & ->).
  exists pre, ws, p, s2. split; trivial.
  now rewrite <- !app_assoc.
Qed.

(** ** Literals, and where the search starts *)

Lemma starts_with_app (p s : str) : starts_with p (p ++ s) = true.
Proof.
  induction p as [|c p IH]; simpl; trivial.
  now rewrite Ascii.eqb_refl.
Qed.

Lemma starts_with_split (p s : str) :
  starts_with p s = true -> s = p ++ skipn (length p) s.
Proof.
  revert s. induction p as [|c p IH]; intros s; simpl; trivial.
  destruct s as [|c' s]; [discriminate|].
  destruct (Ascii.eqb_spec c c') as [<-|]; [|discriminate].
  simpl. intros H. f_equal. now apply IH.
Qed.

Lemma run_literal (R : Type) (l s : str) (g : option str)
    (k : str -> option str -> option R) :
  run R (literal l) s g k =
    if starts_with l s then k (skipn (length l) s) g else None.
Proof.
  revert s. induction l as [|c l IH]; intros s; simpl; trivial.
  destruct s as [|c' s]; trivial.
  destruct (Ascii.eqb c c'); simpl; trivial.
Qed.

Lemma match_here_needs_fence (s : str) :
  starts_with fence_open s = false -> match_here tool_call_pattern s = None.
Proof.
  intros H. unfold match_here, tool_call_pattern. cbn [run].
  now rewrite run_literal, H.
Qed.

Lemma find_first (sub s : str) (n : nat) :
  find sub s = Some n ->
  forall a t, firstn n s = a ++ t -> t <> [] -> starts_with sub (t ++ skipn n s) = false.
Proof.
  revert n. induction s as [|c s IH]; intros n; simpl.
  - destruct (starts_with sub []); [|discriminate].
    intros E. inversion E; subst. simpl. intros a t Ht Hne.
    destruct a; destruct t; simpl in Ht; congruence.
  - destruct (starts_with sub (c :: s)) eqn:Hs.
    + intros E. inversion E; subst. simpl. intros a t Ht Hne.
      destruct a; destruct t; simpl in Ht; congruence.
    + destruct (find sub s) as [m|] eqn:Hf; [|discriminate].
      simpl. intros E. inversion E; subst n. simpl.
      intros a t Ht Hne. destruct a as [|c0 a]; simpl in Ht.
      * subst t. simpl. now rewrite firstn_skipn.
      * inversion Ht; subst. now apply (IH m eq_refl a t).
Qed.

Lemma search_skip (r : regex) (pre s : str) :
  (forall a t, pre = a ++ t -> t <> [] -> match_here r (t ++ s) = None) ->
  search r (pre ++ s) = search r s.
Proof.
  induction pre as [|c pre IH]; intros H; simpl; trivial.
  pose proof (H [] (c :: pre) eq_refl) as H0. simpl in H0.
  rewrite H0 by discriminate.
  apply IH. intros a t -> Hne. now apply (H (c :: a) t).
Qed.

Lemma search_here (r : regex) (s : str) (g : option str) :
  match_here r s = Some g -> search r s = Some g.
Proof. intros H. destruct s; simpl; now rewrite H. Qed.

(** ** Greedy and lazy runs *)

Section Runs.

Variable R : Type.

Lemma greedy_blank_success (w s : str) (k : str -> option R) (r : R) :
  blank w = true ->
  greedy R isspace s k = Some r -> greedy R isspace (w ++ s) k = Some r.
Proof.
  intros Hw Hs. induction w as [|c w IH]; simpl in *; trivial.
  apply andb_prop in Hw. destruct Hw as [Hc Hw].
  now rewrite Hc, IH.
Qed.

Lemma greedy_no_newline (w rest : str) (p : ascii) (k : str -> option R) :
  (forall c s, c <> newline -> k (c :: s) = None) ->
  blank w = true -> ~ In newline w ->
  isspace p = false ->
  greedy R isspace (w ++ p :: rest) k = None.
Proof.
  intros Hk Hw Hnl Hp. induction w as [|c w IH]; simpl in *.
  - rewrite Hp. apply Hk. intros ->. discriminate.
  - apply andb_prop in Hw. destruct Hw as [Hc Hw].
    rewrite Hc, IH; auto.
Qed.

Lemma lazy_first (body tail : str) (k : str -> option R) (r : R) :
  (forall a t, body = a ++ t -> t <> [] -> k (t ++ tail) = None) ->
  k tail = Some r ->
  lazy R any_char (body ++ tail) k = Some r.
Proof.
  intros Hbody Htail. induction body as [|c body IH]; simpl.
  - destruct tail; simpl; now rewrite Htail.
  - pose proof (Hbody [] (c :: body) eq_refl) as H0. simpl in H0.
    rewrite H0 by discriminate.
    apply IH. intros a t -> Hne. now apply (Hbody (c :: a) t).
Qed.

End Runs.

(** ** The closing fence *)

(** [body], followed by [tail], holds no closing fence that starts inside
    [body]. *)
Definition no_close (body tail : str) : Prop :=
  forall a t, body = a ++ t -> t <> [] -> starts_with fence_close (t ++ tail) = false.

Lemma no_close_nil (tail : str) : no_close [] tail.
Proof.
  intros a t E Hne. destruct a; destruct t; simpl in E; congruence.
Qed.

Lemma no_close_cons (c : ascii) (body tail : str) :
  starts_with fence_close (c :: body ++ tail) = false ->
  no_close body tail -> no_close (c :: body) tail.
Proof.
  intros Hc Hb a t E Hne. destruct a as [|c0 a]; simpl in E.
  - now subst t.
  - inversion E; subst. now apply (Hb a t).
Qed.

Lemma no_close_no_newline (x y tail : str) :
  ~ In newline x -> no_close y tail -> no_close (x ++ y) tail.
Proof.
  intros Hx Hy. induction x as [|c x IH]; simpl; trivial.
  apply no_close_cons.
  - unfold fence_close. cbn [starts_with].
    destruct (Ascii.eqb_spec newline c) as [<-|]; trivial.
    exfalso. apply Hx. now left.
  - apply IH. intros H. apply Hx. now right.
Qed.

Lemma no_close_blank (pad post : str) :
  blank pad = true -> no_close pad (fence_close ++ post).
Proof.
  induction pad as [|c pad IH]; intros Hb.
  - apply no_close_nil.
  - simpl in Hb. apply andb_prop in Hb. destruct Hb as [Hc Hb].
    apply no_close_cons; [|now apply IH].
    unfold fence_close at 1. cbn [starts_with].
    destruct (Ascii.eqb newline c); trivial. cbn [andb].
    destruct pad as [|d pad]; [reflexivity|].
    cbn [app py list_ascii_of_string starts_with].
    simpl in Hb. apply andb_prop in Hb. destruct Hb as [Hd _].
    destruct (Ascii.eqb_spec "`"%char d) as [<-|]; [discriminate Hd|reflexivity].
Qed.

Lemma firstn_app_length {A : Type} (x y : list A) :
  firstn (length (x ++ y) - length y) (x ++ y) = x.
Proof.
  rewrite length_app. replace (length x + length y - length y) with (length x) by lia.
  rewrite firstn_app, firstn_all, Nat.sub_diag. simpl. apply app_nil_r.
Qed.

(** After the line break that ends the opening fence: the group takes
    everything up to the first closing fence. *)
Lemma run_group (body post : str) (g : option str) :
  no_close body (fence_close ++ post) ->
  run (option str) (Cat (Group (Lazy any_char)) (literal fence_close))
    (body ++ fence_close ++ post) g (fun _ g' => Some g')
  = Some (Some body).
Proof.
  intros Hnc. cbn [run]. apply lazy_first.
  - intros a t E Hne. rewrite run_literal. now rewrite (Hnc a t E Hne).
  - rewrite run_literal, starts_with_app. now rewrite firstn_app_length.
Qed.

(** The greedy whitespace run gives back characters until it stands on the
    last line break before the payload. *)
Lemma greedy_last_newline (R : Type) (k : str -> option R) (F : str -> R)
    (p : ascii) (rest : str) :
  (forall c s, c <> newline -> k (c :: s) = None) ->
  (forall w2, blank w2 = true -> ~ In newline w2 ->
     k (newline :: w2 ++ p :: rest) = Some (F w2)) ->
  isspace p = false ->
  forall w, blank w = true -> In newline w ->
    exists w2, blank w2 = true /\
      greedy R isspace (w ++ p :: rest) k = Some (F w2).
Proof.
  intros Hfail Hok Hp. induction w as [|c w IH]; intros Hb Hin; [easy|].
  simpl in Hb. apply andb_prop in Hb. destruct Hb as [Hc Hb].
  cbn [app greedy]. rewrite Hc.
  destruct (in_dec ascii_dec newline w) as [Hw|Hw].
  - destruct (IH Hb Hw) as (w2 & Hw2 & ->). now exists w2.
  - rewrite greedy_no_newline by trivial.
    destruct Hin as [->|Hin]; [|contradiction].
    exists w. split; trivial. now apply Hok.
Qed.

(** ** [strip] around a payload *)

Lemma lstrip_blank_app (a s : str) : blank a = true -> lstrip (a ++ s) = lstrip s.
Proof.
  induction a as [|c a IH]; simpl; trivial.
  intros H. apply andb_prop in H. destruct H as [Hc Ha]. now rewrite Hc, IH.
Qed.

Lemma blank_rev (s : str) : blank s = true -> blank (rev s) = true.
Proof.
  unfold blank. rewrite !forallb_forall. intros H c Hc. apply H. now apply in_rev.
Qed.

Lemma strip_padded (a b : str) (p : ascii) (rest : str) :
  blank a = true -> blank b = true ->
  isspace p = false -> rstrip (p :: rest) = p :: rest ->
  strip (a ++ (p :: rest) ++ b) = p :: rest.
Proof.
  intros Ha Hb Hp Hr. unfold strip.
  rewrite lstrip_blank_app by trivial. cbn [app lstrip]. rewrite Hp.
  unfold rstrip in *.
  change (p :: rest ++ b) with ((p :: rest) ++ b).
  rewrite rev_app_distr, lstrip_blank_app by now apply blank_rev.
  exact Hr.
Qed.

(** ** The match at the opening fence *)

Lemma starts_with_app_long (p x y : str) :
  length p <= length x -> starts_with p (x ++ y) = starts_with p x.
Proof.
  revert x. induction p as [|c p IH]; intros x Hlen; simpl; trivial.
  destruct x as [|c' x]; simpl in *; [lia|].
  rewrite IH by lia. reflexivity.
Qed.

Lemma skipn_app_length {A : Type} (x y : list A) : skipn (length x) (x ++ y) = y.
Proof.
  rewrite skipn_app, skipn_all, Nat.sub_diag. reflexivity.
Qed.

Lemma match_here_fence (w rest pad post : str) (p : ascii) :
  blank w = true -> In newline w ->
  isspace p = false -> ~ In newline (p :: rest) -> blank pad = true ->
  exists w2, blank w2 = true /\
    match_here tool_call_pattern
      (fence_open ++ w ++ (p :: rest) ++ pad ++ fence_close ++ post)
    = Some (Some (w2 ++ (p :: rest) ++ pad)).
Proof.
  intros Hw Hin Hp Hnl Hpad.
  unfold match_here, tool_call_pattern. cbn [run].
  rewrite run_literal, starts_with_app, skipn_app_length.
  change ((p :: rest) ++ pad ++ fence_close ++ post)
    with (p :: rest ++ pad ++ fence_close ++ post).
  apply (greedy_last_newline (option str) _
           (fun w2 => Some (w2 ++ (p :: rest) ++ pad))); trivial.
  - intros c s Hc. destruct (Ascii.eqb_spec newline c); [congruence|reflexivity].
  - intros w2 Hw2 Hnl2. rewrite Ascii.eqb_refl.
    replace (w2 ++ p :: rest ++ pad ++ fence_close ++ post)
      with ((w2 ++ (p :: rest) ++ pad) ++ fence_close ++ post)
      by (now rewrite <- !app_assoc).
    apply (run_group _ post None).
    apply no_close_no_newline; trivial.
    apply no_close_no_newline; trivial.
    now apply no_close_blank.
Qed.

(** The payload of the first fenced block, stripped. *)
Lemma extract_tool_call_fenced (pre w rest pad post : str) (p : ascii) :
  find fence_open (pre ++ fence_open) = Some (length pre) ->
  blank w = true -> In newline w ->
  isspace p = false -> rstrip (p :: rest) = p :: rest ->
  ~ In newline (p :: rest) -> blank pad = true ->
  extract_tool_call
    (pre ++ fence_open ++ w ++ (p :: rest) ++ pad ++ fence_close ++ post)
  = Some (p :: rest).
Proof.
  intros Hfind Hw Hin Hp Hr Hnl Hpad.
  destruct (match_here_fence w rest pad post p Hw Hin Hp Hnl Hpad) as (w2 & Hw2 & Hm).
  unfold extract_tool_call.
  rewrite search_skip.
  - rewrite (search_here _ _ _ Hm). f_equal. now apply strip_padded.
  - intros a t E Hne. apply match_here_needs_fence.
    rewrite app_assoc, starts_with_app_long.
    + pose proof (find_first _ _ _ Hfind a t) as H.
      rewrite skipn_app_length in H. apply H; trivial.
      rewrite firstn_app, firstn_all, Nat.sub_diag. simpl. now rewrite app_nil_r.
    + rewrite length_app. lia.
Qed.

(** ** Completeness: where a word of the pattern is, a run succeeds *)

Section Completeness.

Variable R : Type.

Lemma greedy_complete (cls : ascii -> bool) (s1 s2 : str) (k : str -> option R) :
  forallb cls s1 = true -> k s2 <> None -> greedy R cls (s1 ++ s2) k <> None.
Proof.
  intros H1 Hk. induction s1 as [|c s1 IH]; simpl in *.
  - destruct s2 as [|c s2]; trivial. simpl.
    destruct (cls c); trivial. destruct (greedy R cls s2 k); [discriminate|trivial].
  - apply andb_prop in H1. destruct H1 as [Hc H1]. rewrite Hc.
    destruct (greedy R cls (s1 ++ s2) k); [discriminate|]. now elim IH.
Qed.

Lemma lazy_complete (cls : ascii -> bool) (s1 s2 : str) (k : str -> option R) :
  forallb cls s1 = true -> k s2 <> None -> lazy R cls (s1 ++ s2) k <> None.
Proof.
  intros H1 Hk. induction s1 as [|c s1 IH]; simpl in *.
  - destruct s2 as [|c s2]; simpl.
    + destruct (k []); [discriminate|contradiction].
    + destruct (k (c :: s2)); [discriminate|contradiction].
  - apply andb_prop in H1. destruct H1 as [Hc H1].
    destruct (k (c :: s1 ++ s2)); [discriminate|]. rewrite Hc. now apply IH.
Qed.

Lemma run_complete (r : regex) (s1 : str) :
  matches r s1 ->
  forall (s2 : str) (g : option str) (k : str -> option str -> option R),
    (forall g', k s2 g' <> None) -> run R r (s1 ++ s2) g k <> None.
Proof.
  induction 1 as [c|r1 r2 s1 s3 H1 IH1 H2 IH2|cls s Hs|cls s Hs|r s H IH|];
    intros s2 g k Hk; simpl.
  - rewrite Ascii.eqb_refl. apply Hk.
  - rewrite <- app_assoc. apply IH1. intros g'. now apply IH2.
  - apply greedy_complete; trivial.
  - apply lazy_complete; trivial.
  - apply IH. intros _. apply Hk.
  - apply Hk.
Qed.

End Completeness.

Lemma search_complete (r : regex) (pre s1 s2 : str) :
  matches r s1 -> search r (pre ++ s1 ++ s2) <> None.
Proof.
  intros Hm. induction pre as [|c pre IH]; simpl.
  - assert (H : match_here r (s1 ++ s2) <> None)
      by (apply run_complete; [trivial|discriminate]).
    destruct (s1 ++ s2) as [|c s].
    + simpl. destruct (match_here r []); [discriminate|contradiction].
    + simpl. destruct (match_here r (c :: s)); [discriminate|contradiction].
  - destruct (match_here r (c :: pre ++ s1 ++ s2)); [discriminate|trivial].
Qed.

Lemma matches_literal_self (l : str) : matches (literal l) l.
Proof.
  induction l as [|c l IH]; simpl.
  - constructor.
  - change (c :: l) with ([c] ++ l). constructor; [constructor|trivial].
Qed.

(** Where there is a fenced block, [extract_tool_call] finds one. *)
Lemma extract_tool_call_complete (text : str) :
  has_tool_code_block text -> extract_tool_call text <> None.
Proof.
  intros (pre & ws & payload & post & Hws & ->).
  unfold extract_tool_call.
  assert (Hm : matches tool_call_pattern
                 (fence_open ++ ws ++ [newline] ++ payload ++ fence_close)).
  { unfold tool_call_pattern.
    constructor; [apply matches_literal_self|].
    constructor; [now constructor|].
    constructor; [constructor|].
    constructor; [|apply matches_literal_self].
    constructor. constructor. unfold any_char.
    apply forallb_forall. reflexivity. }
  pose proof (search_complete tool_call_pattern pre _ post Hm) as H.
  replace (pre ++ fence_open ++ ws ++ [newline] ++ payload ++ fence_close ++ post)
    with (pre ++ (fence_open ++ ws ++ [newline] ++ payload ++ fence_close) ++ post)
    by (now rewrite <- !app_assoc).
  destruct (search tool_call_pattern _); [discriminate|contradiction].
Qed.

End RegexFacts.

(** * Sequence Builder: more lemmas *)

Module SequenceBuilderMoreFacts.
Import SequenceBuilder Vocabulary SequenceBuilderFacts.

(** ** Stability of the sort *)

(** The entries with timestamp [t], in order. *)
Definition at_time (t : Z) (l : list Movie) : list Movie :=
  filter (fun m => Z.eqb (timestamp m) t) l.

Lemma at_time_insert (t : Z) (x : Movie) (l : list Movie) :
  at_time t (insert_by_timestamp x l) = at_time t (x :: l).
Proof.
  induction l as [|y l IH]; simpl; trivial.
  destruct (Z.leb_spec (timestamp x) (timestamp y)) as [Hle|Hgt]; trivial.
  simpl. fold (at_time t (insert_by_timestamp x l)). rewrite IH. simpl.
  destruct (Z.eqb_spec (timestamp y) t) as [Hy|Hy];
    destruct (Z.eqb_spec (timestamp x) t) as [Hx|Hx]; trivial.
  lia.
Qed.

Lemma at_time_sort (t : Z) (l : list Movie) :
  at_time t (sort_by_timestamp l) = at_time t l.
Proof.
  induction l as [|x l IH]; simpl; trivial.
  rewrite at_time_insert. simpl. fold (at_time t (sort_by_timestamp l)).
  now rewrite IH.
Qed.

(** ** Users the builder leaves out, and counting *)

Lemma generate_examples_from_user_sequences_short (MAX MIN : nat) (u : Z)
    (s : list Movie) (l : Sequences) :
  length s < MIN ->
  generate_examples_from_user_sequences MAX MIN ((u, s) :: l) =
    generate_examples_from_user_sequences MAX MIN l.
Proof.
  intros H. unfold generate_examples_from_user_sequences. simpl.
  destruct (Nat.ltb_spec (length s) MIN); [reflexivity|lia].
Qed.

(** The users whose sequence is long enough. *)
Definition kept (MIN : nat) (sequences : Sequences) : Sequences :=
  filter (fun entry => MIN <=? length (snd entry)) sequences.

Lemma generate_examples_counts (MAX MIN : nat) (sequences : Sequences) :
  2 <= MIN ->
  length (snd (generate_examples_from_user_sequences MAX MIN sequences))
    = length (kept MIN sequences) /\
  length (fst (generate_examples_from_user_sequences MAX MIN sequences))
    = list_sum (map (fun entry => length (snd entry) - 2) (kept MIN sequences)).
Proof.
  intros HMIN. induction sequences as [|[u s] l [IHte IHtr]].
  - split; reflexivity.
  - simpl kept. destruct (Nat.leb_spec MIN (length s)) as [Hlen|Hlen].
    + rewrite generate_examples_from_user_sequences_cons by trivial.
      rewrite generate_examples_from_user_sequence_eq by lia.
      cbn [fst snd]. rewrite !length_app, length_map, length_seq.
      cbn [length map list_sum snd]. fold (kept MIN l).
      simpl list_sum. split; lia.
    + rewrite generate_examples_from_user_sequences_short by trivial.
      fold (kept MIN l). now split.
Qed.

(** ** What a train example is made of *)

Lemma firstn_incl_removelast {A : Type} (l : list A) (k : nat) (x : A) :
  k < length l -> In x (firstn k l) -> In x (removelast l).
Proof.
  intros Hk Hx.
  destruct l as [|a l] using rev_ind; [simpl in Hk; lia|].
  clear IHl. rewrite removelast_last. rewrite length_app in Hk. simpl in Hk.
  rewrite firstn_app in Hx. apply in_app_or in Hx. destruct Hx as [Hx|Hx].
  - rewrite <- (firstn_skipn k l). apply in_or_app. now left.
  - replace (k - length l) with 0 in Hx by lia. destruct Hx.
Qed.

Lemma slice_incl_firstn {A : Type} (l : list A) (a b : nat) (x : A) :
  In x (slice l a b) -> In x (firstn b l).
Proof.
  unfold slice. intros H.
  destruct (Nat.le_gt_cases a b) as [Hab|Hab].
  - rewrite firstn_skipn_comm in H. replace (a + (b - a)) with b in H by lia.
    rewrite <- (firstn_skipn a (firstn b l)). apply in_or_app. now right.
  - replace (b - a) with 0 in H by lia. destruct H.
Qed.

Lemma nth_In_firstn {A : Type} (l : list A) (i : nat) (d : A) :
  i < length l -> In (nth i l d) (firstn (S i) l).
Proof.
  revert i. induction l as [|a l IH]; intros [|i] H; simpl in *; try lia; auto.
  right. apply IH. lia.
Qed.

End SequenceBuilderMoreFacts.

(** * The rest of the notebook: lemmas *)

Module NotebookRestFacts.
Import SequenceBuilder FunctionCalling Vocabulary NotebookRest.
Import SequenceBuilderFacts FunctionCallingFacts.

(** ** Columns *)

Section Columns.

Variable V : Type.

(** The values a dictionary holds under [key]. *)
Definition values_of (key : str) (dictionary : list (str * V)) : list V :=
  map snd (filter (fun item => str_eqb (fst item) key) dictionary).

(** A column after more values were appended to it. *)
Definition extended (c : option (list V)) (vs : list V) : option (list V) :=
  match vs with
  | [] => c
  | _ => Some (match c with Some l => l | None => [] end ++ vs)
  end.

Lemma extended_app (c : option (list V)) (a b : list V) :
  extended (extended c a) b = extended c (a ++ b).
Proof.
  destruct a as [|x a]; simpl; trivial.
  destruct b as [|y b]; simpl.
  - now rewrite app_nil_r.
  - now rewrite <- app_assoc.
Qed.

Lemma column_append_get (d : list (str * list V)) (key k : str) (v : V) :
  column (column_append d key v) k =
    if str_eqb key k then extended (column d k) [v] else column d k.
Proof.
  induction d as [|[k0 c] d IH]; simpl.
  - destruct (str_eqb key k); reflexivity.
  - destruct (str_eqb k0 key) eqn:E0; simpl.
    + apply str_eqb_eq in E0. subst k0.
      destruct (str_eqb key k); reflexivity.
    + destruct (str_eqb k0 k) eqn:E1.
      * apply str_eqb_eq in E1. subst k0. now rewrite (str_eqb_neq key k)
          by (intros ->; rewrite str_eqb_refl in E0; discriminate).
      * apply IH.
Qed.

Lemma column_items (dictionary : list (str * V)) (d : list (str * list V)) (k : str) :
  column
    (fold_left (fun d '(key, value) => column_append d key value) dictionary d) k
  = extended (column d k) (values_of k dictionary).
Proof.
  revert d. induction dictionary as [|[key v] dictionary IH]; intros d; simpl.
  - reflexivity.
  - rewrite IH, column_append_get.
    assert (E : values_of k ((key, v) :: dictionary)
                = (if str_eqb key k then [v] else []) ++ values_of k dictionary)
      by (unfold values_of; simpl; destruct (str_eqb key k); reflexivity).
    rewrite E. destruct (str_eqb key k); [apply extended_app|reflexivity].
Qed.

Lemma column_dicts (ds : list (list (str * V))) (d : list (str * list V)) (k : str) :
  column
    (fold_left
       (fun d dictionary =>
          fold_left (fun d '(key, value) => column_append d key value) dictionary d)
       ds d) k
  = extended (column d k) (flat_map (values_of k) ds).
Proof.
  revert d. induction ds as [|dictionary ds IH]; intros d; simpl.
  - reflexivity.
  - now rewrite IH, column_items, extended_app.
Qed.

End Columns.

Arguments values_of {V} key dictionary.

Lemma example_columns (es : list Example) (c l : list Value) :
  fold_left
    (fun d dictionary =>
       fold_left (fun d '(key, value) => column_append d key value) dictionary d)
    (map example_items es)
    [(py "context_movie_id", c); (py "label_movie_id", l)]
  = [(py "context_movie_id",
      c ++ map (fun e => VList (map VInt (context_movie_id e))) es);
     (py "label_movie_id", l ++ map (fun e => VInt (label_movie_id e)) es)].
Proof.
  revert c l. induction es as [|e es IH]; intros c l.
  - simpl. now rewrite !app_nil_r.
  - cbn [map fold_left example_items column_append].
    replace (str_eqb (py "context_movie_id") (py "context_movie_id")) with true
      by reflexivity.
    cbn [column_append].
    replace (str_eqb (py "context_movie_id") (py "label_movie_id")) with false
      by reflexivity.
    replace (str_eqb (py "label_movie_id") (py "label_movie_id")) with true
      by reflexivity.
    rewrite IH. cbn [map]. now rewrite <- !app_assoc.
Qed.

(** ** Titles *)

Lemma title_get_set_same (d : list (Z * str)) (k : Z) (v : str) :
  title_get (title_set d k v) k = Some v.
Proof.
  induction d as [|[k0 v0] d IH]; simpl.
  - now rewrite Z.eqb_refl.
  - destruct (Z.eqb k0 k) eqn:E; simpl; rewrite E; trivial.
Qed.

Lemma title_get_set_other (d : list (Z * str)) (k k' : Z) (v : str) :
  k <> k' -> title_get (title_set d k v) k' = title_get d k'.
Proof.
  intros Hne. induction d as [|[k0 v0] d IH]; simpl.
  - destruct (Z.eqb_spec k k'); [contradiction|reflexivity].
  - destruct (Z.eqb_spec k0 k) as [->|]; simpl.
    + destruct (Z.eqb_spec k k'); [contradiction|reflexivity].
    + now rewrite IH.
Qed.

Lemma title_set_keeps (d : list (Z * str)) (k k' : Z) (v : str) :
  title_get d k' <> None -> title_get (title_set d k v) k' <> None.
Proof.
  intros H. destruct (Z.eq_dec k k') as [->|Hne].
  - now rewrite title_get_set_same.
  - now rewrite title_get_set_other.
Qed.

Lemma titles_cover (movies_df : list (Z * str)) (d : list (Z * str)) (k : Z) :
  In k (map fst movies_df) \/ title_get d k <> None ->
  title_get
    (fold_left (fun d '(movie_id, title) => title_set d movie_id title) movies_df d) k
  <> None.
Proof.
  revert d. induction movies_df as [|[id title] movies_df IH]; intros d H; simpl.
  - destruct H as [[]|H]. exact H.
  - apply IH. simpl in H. destruct H as [[->|H]|H]; auto.
    + right. now rewrite title_get_set_same.
    + right. now apply title_set_keeps.
Qed.

End NotebookRestFacts.

(** * The structured call parser and [preprocess]: more lemmas *)

Module ParserMoreFacts.
Import FunctionCalling Vocabulary GuideRest FunctionCallingFacts.

(** ** [np.where] *)

Lemma np_where_eq_none (a : list Z) (x : Z) (from : nat) :
  ~ In x a -> np_where_eq a x from = [].
Proof.
  revert from. induction a as [|y a IH]; intros from H; simpl; trivial.
  destruct (Z.eqb_spec y x) as [->|_].
  - exfalso. apply H. now left.
  - apply IH. intros Hin. apply H. now right.
Qed.

Lemma np_where_eq_first (pre post : list Z) (x : Z) (from : nat) :
  ~ In x pre ->
  exists more, np_where_eq (pre ++ x :: post) x from = (from + length pre) :: more.
Proof.
  revert from. induction pre as [|y pre IH]; intros from H; simpl.
  - rewrite Z.eqb_refl, Nat.add_0_r. eauto.
  - destruct (Z.eqb_spec y x) as [->|_].
    + exfalso. apply H. now left.
    + destruct (IH (S from)) as (more & E).
      * intros Hin. apply H. now right.
      * exists more. rewrite E. f_equal. lia.
Qed.

(** ** The loop over the calls *)

Section Loop.

Variable tokenizer : Tokenizer.
Variable json : JsonCodec.
Variable random : RandomGen.
Variable tools : Tools.

(** The generator after [n] identifiers were drawn. *)
Fixpoint after_ids (n : nat) (g : Rng random) : Rng random :=
  match n with
  | O => g
  | S n' => after_ids n' (snd (choices random id_alphabet 9 g))
  end.

(** The tool a call object names, if it is registered. *)
Definition named_tool (call : Value) : option Tool :=
  match call with
  | VDict entries =>
      match dict_get entries (py "name") with
      | Some (VStr n) => tools_get tools n
      | _ => None
      end
  | _ => None
  end.

(** A call object the loop skips: its name can be looked up and is not
    registered. *)
Definition skipped (call : Value) : Prop :=
  exists entries name,
    call = VDict entries /\ dict_get entries (py "name") = Some name /\
    hashable name = true /\
    named_tool call = None.

(** One result block. *)
Definition result_block (text : str) : list (list Z) :=
  [[token_to_id tokenizer (py "[TOOL_RESULTS]")];
   tokenize tokenizer text;
   [token_to_id tokenizer (py "[/TOOL_RESULTS]")]].

Lemma call_loop_skip (entries : list (str * Value)) (name : Value)
    (rest : list Value) (res : list (list Z)) (g : Rng random) :
  dict_get entries (py "name") = Some name -> hashable name = true ->
  named_tool (VDict entries) = None ->
  call_loop tokenizer json random tools (VDict entries :: rest) res g =
  call_loop tokenizer json random tools rest res (snd (choices random id_alphabet 9 g)).
Proof.
  intros Hname Hh Hnone. cbn [call_loop].
  destruct (choices random id_alphabet 9 g) as [call_id g1]. cbn [snd].
  rewrite dict_get_set_other by discriminate. rewrite Hname, Hh. cbn [negb].
  unfold named_tool in Hnone. rewrite Hname in Hnone.
  destruct name; try reflexivity. now rewrite Hnone.
Qed.

Lemma call_loop_all_skipped (items : list Value) (res : list (list Z)) (g : Rng random) :
  Forall skipped items ->
  call_loop tokenizer json random tools items res g =
    (Ok res, after_ids (length items) g).
Proof.
  intros H. revert res g. induction H as [|call items Hc _ IH]; intros res g.
  - reflexivity.
  - destruct Hc as (entries & name & -> & Hname & Hh & Hnone).
    rewrite (call_loop_skip entries name) by trivial. apply IH.
Qed.

(** A successful run of the loop adds one block per call that names a
    registered tool, and draws one identifier per call. *)
Lemma call_loop_blocks (items : list Value) :
  forall (res res' : list (list Z)) (g g' : Rng random),
    call_loop tokenizer json random tools items res g = (Ok res', g') ->
    g' = after_ids (length items) g /\
    exists texts : list str,
      res' = res ++ flat_map result_block texts /\
      length texts = length (filter (fun c => match named_tool c with
                                               | Some _ => true
                                               | None => false
                                               end) items).
Proof.
  induction items as [|call items IH]; intros res res' g g'.
  - simpl. intros E. inversion E; subst. split; trivial.
    exists []. simpl. now rewrite app_nil_r.
  - cbn [call_loop filter length after_ids].
    destruct (choices random id_alphabet 9 g) as [call_id g1] eqn:Hch. cbn [snd].
    destruct call as [| | | | | |entries|]; try discriminate.
    rewrite dict_get_set_other by discriminate.
    destruct (dict_get entries (py "name")) as [name|] eqn:Hname; [|discriminate].
    assert (Hnt : named_tool (VDict entries)
                  = match name with VStr n => tools_get tools n | _ => None end)
      by (unfold named_tool; now rewrite Hname).
    rewrite Hnt. clear Hnt.
    destruct (hashable name) eqn:Hh; cbn [negb]; [|discriminate].
    destruct (match name with VStr n => tools_get tools n | _ => None end)
      as [tool|] eqn:Htool.
    + destruct (dict_get (dict_set entries (py "id") (VStr call_id)) (py "arguments"))
        as [a|]; [|discriminate].
      destruct a as [| | | | | |kwargs|]; try discriminate.
      destruct (tool kwargs) as [content|]; [|discriminate].
      destruct (dict_get (dict_set entries (py "id") (VStr call_id)) (py "id"))
        as [id|]; [|discriminate].
      destruct (dumps json (VDict [(py "content", content); (py "call_id", id)]))
        as [text|]; [|discriminate].
      intros E. apply IH in E. destruct E as (-> & texts & -> & Hlen).
      split; trivial. exists (text :: texts). split.
      * simpl. now rewrite <- !app_assoc.
      * simpl. now rewrite Hlen.
    + intros E. now apply IH in E.
Qed.

Lemma try_parse_funccall_loop
    (before after : list Z) (g g' : Rng random) (items : list Value) (n : nat)
    (res : list (list Z)) :
  ~ In (token_to_id tokenizer (py "[TOOL_CALLS]")) before ->
  raw_decode json (detokenize tokenizer after) = Ok (VList items, n) ->
  forallb is_dict items = true ->
  call_loop tokenizer json random tools items [] g = (Ok res, g') ->
  try_parse_funccall tokenizer json random tools
    (before ++ token_to_id tokenizer (py "[TOOL_CALLS]") :: after) g
  = (Ok res, g', []).
Proof.
  intros Hbefore Hdec Hdicts Hloop. unfold try_parse_funccall.
  destruct (np_where_eq_first before after _ 0 Hbefore) as (more & ->).
  cbn [Nat.add].
  replace (skipn (length before + 1)
             (before ++ token_to_id tokenizer (py "[TOOL_CALLS]") :: after))
    with after.
  - now rewrite Hdec, Hdicts, Hloop.
  - rewrite skipn_app, skipn_all2 by lia.
    replace (length before + 1 - length before) with 1 by lia. reflexivity.
Qed.

End Loop.

(** ** [preprocess] *)

Lemma preprocess_positive (messages : list (list Z)) (sequence_length : Z) :
  messages <> [] ->
  (0 < sequence_length)%Z ->
  let total := length (concat messages) in
  let n := Z.to_nat sequence_length in
  exists batch : Batch,
    preprocess messages sequence_length = Ok batch /\
    token_ids batch = [firstn n (concat messages) ++ repeat 0%Z (n - total)] /\
    padding_mask batch =
      [repeat 1%Z (Nat.min total n) ++ repeat 0%Z (n - Nat.min total n)].
Proof.
  intros Hne Hpos total n.
  unfold preprocess.
  destruct messages as [|m ms]; [contradiction|].
  cbn [np_concatenate]. fold total.
  assert (Hshape : shape1 [concat (m :: ms)] = Z.of_nat total) by reflexivity.
  rewrite Hshape.
  assert (Hn : sequence_length = Z.of_nat n) by (subst n; lia).
  destruct (Z.gtb_spec (Z.of_nat total) sequence_length) as [Hlong|Hshort].
  - eexists. split; [reflexivity|].
    cbn [token_ids padding_mask map].
    unfold slice_upto. destruct (Z.ltb_spec sequence_length 0); [lia|].
    fold n. unfold shape1. cbn [hd].
    assert (Hlen : length (firstn n (concat (m :: ms))) = n)
      by (rewrite length_firstn; fold total; lia).
    rewrite Hlen.
    replace (Z.to_nat (Z.max 0 (sequence_length - Z.of_nat n))) with 0 by lia.
    replace (n - total) with 0 by lia.
    replace (Nat.min total n) with n by lia.
    split; trivial.
    rewrite Hn at 1. rewrite mask_prefix by lia. reflexivity.
  - eexists. split; [reflexivity|].
    cbn [token_ids padding_mask map]. rewrite Hshape.
    replace (Z.to_nat (Z.max 0 (sequence_length - Z.of_nat total))) with (n - total) by lia.
    rewrite firstn_all2 by (fold total; lia).
    replace (Nat.min total n) with total by lia.
    split; trivial.
    rewrite Hn at 1. rewrite mask_prefix by lia. reflexivity.
Qed.

End ParserMoreFacts.


(** * The pattern matcher: more lemmas *)

Module RegexMoreFacts.
Import FunctionCalling Vocabulary GuideRest FunctionCallingFacts RegexFacts.
Import Regex.

(** ** What a match is, exactly *)

Lemma lazy_sound_first (R : Type) (cls : ascii -> bool) (s : str)
    (k : str -> option R) (res : R) :
  lazy R cls s k = Some res ->
  exists s1 s2,
    s = s1 ++ s2 /\ k s2 = Some res /\
    forall a t, s1 = a ++ t -> t <> [] -> k (t ++ s2) = None.
Proof.
  induction s as [|c s IH]; simpl.
  - destruct (k []) eqn:Hk; [|discriminate].
    intros E. inversion E; subst. exists [], []. repeat split; trivial.
    intros a t Ht Hne. destruct a; destruct t; simpl in Ht; congruence.
  - destruct (k (c :: s)) eqn:Hk.
    + intros E. inversion E; subst. exists [], (c :: s). repeat split; trivial.
      intros a t Ht Hne. destruct a; destruct t; simpl in Ht; congruence.
    + destruct (cls c); [|discriminate].
      intros H. destruct (IH H) as (s1 & s2 & -> & Hk2 & Hmin).
      exists (c :: s1), s2. repeat split; trivial.
      intros a t Ht Hne. destruct a as [|c0 a]; simpl in Ht.
      * subst t. exact Hk.
      * inversion Ht; subst. now apply (Hmin a t).
Qed.

Lemma search_sound_first (r : regex) (s : str) (g : option str) :
  search r s = Some g ->
  exists pre s0, s = pre ++ s0 /\ match_here r s0 = Some g.
Proof.
  induction s as [|c s IH]; simpl.
  - destruct (match_here r []) as [g0|] eqn:Hm; [|discriminate].
    intros E. inversion E; subst. exists [], []. auto.
  - destruct (match_here r (c :: s)) as [g0|] eqn:Hm.
    + intros E. inversion E; subst. exists [], (c :: s). auto.
    + intros H. destruct (IH H) as (pre & s0 & -> & Hm').
      exists (c :: pre), s0. auto.
Qed.

Lemma match_here_shape (s : str) (g : option str) :
  match_here tool_call_pattern s = Some g ->
  exists ws payload post,
    blank ws = true /\
    s = fence_open ++ ws ++ [newline] ++ payload ++ fence_close ++ post /\
    no_close payload (fence_close ++ post) /\
    g = Some payload.
Proof.
  unfold match_here, tool_call_pattern. cbn [run].
  rewrite run_literal.
  destruct (starts_with fence_open s) eqn:Hopen; [|discriminate].
  apply starts_with_split in Hopen.
  set (s1 := skipn (length fence_open) s) in *.
  intros H. apply greedy_sound in H. destruct H as (ws & s2 & Hs1 & Hws & H).
  destruct s2 as [|c s3]; [discriminate|].
  destruct (Ascii.eqb_spec newline c) as [<-|]; [|discriminate].
  apply lazy_sound_first in H. destruct H as (payload & s4 & -> & Hk & Hmin).
  rewrite run_literal in Hk.
  destruct (starts_with fence_close s4) eqn:Hclose; [|discriminate].
  apply starts_with_split in Hclose.
  set (post := skipn (length fence_close) s4) in *.
  exists ws, payload, post. repeat split; trivial.
  - rewrite Hopen, Hs1, Hclose. reflexivity.
  - intros a t Ht Hne. specialize (Hmin a t Ht Hne).
    rewrite run_literal in Hmin. rewrite <- Hclose.
    destruct (starts_with fence_close (t ++ s4)); [discriminate|reflexivity].
  - inversion Hk as [E]. now rewrite firstn_app_length.
Qed.

(** ** The first closing fence *)

Lemma no_close_find (payload tail : str) :
  no_close payload tail -> starts_with fence_close tail = true ->
  find fence_close (payload ++ tail) = Some (length payload).
Proof.
  intros Hnc Htail. induction payload as [|c payload IH].
  - cbn [app length]. destruct tail; cbn [find]; now rewrite Htail.
  - assert (H0 : starts_with fence_close (c :: payload ++ tail) = false).
    { apply (Hnc [] (c :: payload) eq_refl). discriminate. }
    change ((c :: payload) ++ tail) with (c :: payload ++ tail).
    cbn [find]. rewrite H0.
    rewrite IH; trivial.
    intros a t -> Hne. now apply (Hnc (c :: a) t).
Qed.

Lemma find_no_close (payload post : str) :
  find fence_close (payload ++ fence_close) = Some (length payload) ->
  no_close payload (fence_close ++ post).
Proof.
  intros Hfind a t E Hne.
  pose proof (find_first _ _ _ Hfind a t) as H.
  rewrite skipn_app_length in H.
  rewrite app_assoc, starts_with_app_long.
  - apply H; trivial.
    rewrite firstn_app, firstn_all, Nat.sub_diag. simpl. now rewrite app_nil_r.
  - rewrite length_app. simpl. lia.
Qed.

(** ** [strip] once more *)

Lemma lstrip_split (s : str) : exists a, blank a = true /\ s = a ++ lstrip s.
Proof.
  induction s as [|c s (a & Ha & E)]; simpl.
  - exists []. auto.
  - destruct (isspace c) eqn:Hc.
    + exists (c :: a). simpl. rewrite Hc, Ha. split; trivial. now f_equal.
    + exists []. auto.
Qed.

Lemma lstrip_head (s : str) (c : ascii) (t : str) :
  lstrip s = c :: t -> isspace c = false.
Proof.
  induction s as [|x s IH]; simpl; [discriminate|].
  destruct (isspace x) eqn:Hx; trivial.
  intros E. inversion E; subst. exact Hx.
Qed.

Lemma lstrip_idem (s : str) : lstrip (lstrip s) = lstrip s.
Proof.
  destruct (lstrip s) as [|c t] eqn:E; trivial.
  simpl. now rewrite (lstrip_head s c t E).
Qed.

Lemma rstrip_split (s : str) : exists b, blank b = true /\ s = rstrip s ++ b.
Proof.
  unfold rstrip. destruct (lstrip_split (rev s)) as (a & Ha & E).
  exists (rev a). split; [now apply blank_rev|].
  rewrite <- rev_app_distr, <- E. now rewrite rev_involutive.
Qed.

Lemma rstrip_idem (s : str) : rstrip (rstrip s) = rstrip s.
Proof. unfold rstrip. now rewrite rev_involutive, lstrip_idem. Qed.

Lemma strip_split (s : str) :
  exists a b, blank a = true /\ blank b = true /\ s = a ++ strip s ++ b.
Proof.
  destruct (lstrip_split s) as (a & Ha & E).
  destruct (rstrip_split (lstrip s)) as (b & Hb & E').
  exists a, b. repeat split; trivial. unfold strip. now rewrite <- E', <- E.
Qed.

Lemma strip_clean (s : str) (c : ascii) (t : str) :
  strip s = c :: t -> isspace c = false /\ rstrip (c :: t) = c :: t.
Proof.
  intros E. split.
  - unfold strip in E.
    destruct (rstrip_split (lstrip s)) as (b & Hb & E'). rewrite E in E'.
    simpl in E'. now apply (lstrip_head s c ((t ++ b))).
  - rewrite <- E. unfold strip. apply rstrip_idem.
Qed.

(** The closing fence cannot begin inside the stripped payload either. *)
Lemma no_close_strip (payload post post' : str) :
  no_close payload (fence_close ++ post) ->
  no_close (strip payload) (fence_close ++ post').
Proof.
  intros Hnc x t E Hne.
  destruct (strip_split payload) as (a & b & Ha & Hb & Hp).
  assert (H : starts_with fence_close (t ++ b ++ fence_close ++ post) = false).
  { rewrite (app_assoc t b). apply (Hnc (a ++ x) (t ++ b)).
    - rewrite Hp at 1. rewrite E. now rewrite <- !app_assoc.
    - destruct t; [contradiction|discriminate]. }
  unfold fence_close in *. cbn [py list_ascii_of_string] in *.
  destruct t as [|c1 [|c2 [|c3 [|c4 t]]]]; [contradiction| | | |].
  - cbn [app starts_with]. destruct (Ascii.eqb newline c1); reflexivity.
  - cbn [app starts_with].
    destruct (Ascii.eqb newline c1); destruct (Ascii.eqb "`" c2); reflexivity.
  - cbn [app starts_with].
    destruct (Ascii.eqb newline c1); destruct (Ascii.eqb "`" c2);
      destruct (Ascii.eqb "`" c3); reflexivity.
  - etransitivity; [|exact H]. reflexivity.
Qed.

(** ** A fenced block read back *)

Lemma extract_tool_call_refenced (code post : str) (c : ascii) (t : str) :
  code = c :: t -> isspace c = false -> rstrip code = code ->
  no_close code (fence_close ++ post) ->
  extract_tool_call (fence_open ++ [newline] ++ code ++ fence_close ++ post)
  = Some code.
Proof.
  intros Hcode Hc Hr Hnc. unfold extract_tool_call.
  assert (Hm : match_here tool_call_pattern
                 (fence_open ++ [newline] ++ code ++ fence_close ++ post)
               = Some (Some code)).
  { unfold match_here, tool_call_pattern. cbn [run].
    rewrite run_literal, starts_with_app, skipn_app_length.
    rewrite Hcode in *. cbn [app greedy].
    replace (isspace newline) with true by reflexivity. rewrite Hc.
    destruct (Ascii.eqb_spec newline c) as [<-|_]; [discriminate Hc|].
    rewrite Ascii.eqb_refl.
    apply (run_group (c :: t) post None Hnc). }
  rewrite (search_here _ _ _ Hm). f_equal.
  unfold strip. rewrite Hcode in *. cbn [lstrip]. rewrite Hc. exact Hr.
Qed.

(** The shape of a text from which a payload is extracted. *)
Lemma extract_tool_call_shape (text code : str) :
  extract_tool_call text = Some code ->
  exists pre ws payload post : str,
    text = pre ++ fence_open ++ ws ++ [newline] ++ payload ++ fence_close ++ post /\
    blank ws = true /\
    find fence_close (payload ++ fence_close ++ post) = Some (length payload) /\
    code = strip payload.
Proof.
  unfold extract_tool_call.
  destruct (Regex.search tool_call_pattern text) as [g|] eqn:Hs; [|discriminate].
  intros E. inversion E as [Hcode]. clear E.
  apply search_sound_first in Hs. destruct Hs as (pre & s0 & -> & Hm).
  apply match_here_shape in Hm.
  destruct Hm as (ws & payload & post & Hws & -> & Hnc & ->).
  exists pre, ws, payload, post.
  split; [reflexivity|]. split; [exact Hws|]. split; [|reflexivity].
  apply no_close_find; [exact Hnc|apply starts_with_app].
Qed.


(** ** Text in which no match can begin *)

(** [t] departs from [p] at a character they both have. *)
Fixpoint differs (p t : str) : bool :=
  match p, t with
  | c :: p', c' :: t' => if Ascii.eqb c c' then differs p' t' else true
  | _, _ => false
  end.

Lemma differs_sound (p t y : str) :
  differs p t = true -> starts_with p (t ++ y) = false.
Proof.
  revert t. induction p as [|c p IH]; intros t; simpl; [discriminate|].
  destruct t as [|c' t]; [discriminate|]. simpl.
  destruct (Ascii.eqb c c'); simpl; auto.
Qed.

(** No match of the pattern begins at the head of [t], whatever follows
    [t]: either [t] is not an opening fence, or the fence is followed by a
    character that is not whitespace. *)
Definition blocked (t : str) : bool :=
  differs fence_open t
  || (starts_with fence_open t
      && match skipn (length fence_open) t with
         | c :: _ => negb (isspace c)
         | [] => false
         end).

Fixpoint all_blocked (t : str) : bool :=
  match t with
  | [] => true
  | _ :: t' => blocked t && all_blocked t'
  end.

Lemma blocked_sound (t y : str) :
  blocked t = true -> match_here tool_call_pattern (t ++ y) = None.
Proof.
  unfold blocked. intros H. apply orb_prop in H. destruct H as [H|H].
  - apply match_here_needs_fence. now apply differs_sound.
  - apply andb_prop in H. destruct H as [Hopen H].
    apply starts_with_split in Hopen.
    destruct (skipn (length fence_open) t) as [|c r] eqn:Hr; [discriminate|].
    apply negb_true_iff in H.
    rewrite Hopen, <- app_assoc.
    unfold match_here, tool_call_pattern. cbn [run].
    rewrite run_literal, starts_with_app, skipn_app_length.
    cbn [app greedy]. rewrite H.
    destruct (Ascii.eqb_spec newline c) as [<-|_]; [discriminate H|reflexivity].
Qed.

Lemma all_blocked_sound (m : str) :
  all_blocked m = true ->
  forall a t, m = a ++ t -> t <> [] -> blocked t = true.
Proof.
  induction m as [|c m IH]; intros H a t E Hne.
  - destruct a; destruct t; simpl in E; congruence.
  - simpl in H. apply andb_prop in H. destruct H as [Hb Hall].
    destruct a as [|c0 a]; simpl in E.
    + now subst t.
    + inversion E; subst. now apply (IH Hall a t).
Qed.

Lemma extract_tool_call_skips (m y : str) :
  all_blocked m = true ->
  extract_tool_call (m ++ y) = extract_tool_call y.
Proof.
  intros H. unfold extract_tool_call. rewrite search_skip; trivial.
  intros a t E Hne. apply blocked_sound. now apply (all_blocked_sound m H a t).
Qed.

End RegexMoreFacts.

(** * The two conversation loops: lemmas *)

Module LoopFacts.
Import FunctionCalling Vocabulary GuideRest FlightAgent LoopVocabulary.
Import FunctionCallingFacts RegexFacts RegexMoreFacts ParserMoreFacts.

(** ** [capture_code_output] and the handler around it *)

Section Capture.

Variable World : Type.
Variable Namespace : Type.
Variable new_dict : World -> Namespace * World.
Variable py_eval : str -> Namespace -> Namespace -> Buffer -> World -> Run World Value.
Variable py_exec : str -> Namespace -> Namespace -> Buffer -> World -> Run World unit.
Variable exc_str : PyExc -> World -> Result str * World.

Let block := redirected_block World Namespace py_eval py_exec.
Let capture := capture_code_output World Namespace new_dict py_eval py_exec exc_str.



(** ** [automated_tool_calling_example] *)

Variable generate : str -> World -> str * World.
Variable local_vars : World -> Namespace * World.
Variable py_format : Value -> World -> Result str * World.

Let handler := except_Exception World exc_str.







(** The handler on an exception outside [Exception], or with a [str(e)] that
    raises: the exception goes on. *)
Lemma except_Exception_raise (e e' : PyExc) (history : list str) (context : str)
    (out : list Printed) (w w' : World) :
  raises_no_Exception exc_str ->
  handler e history context out w = (Raise e', w') ->
  is_Exception (exc_class e') = false.
Proof.
  intros Hstr. subst handler. unfold except_Exception.
  destruct (is_Exception (exc_class e)) eqn:He.
  - destruct (exc_str e w) as [[text|e1] w1] eqn:E; [discriminate|].
    intros H. inversion H; subst. exact (Hstr _ _ _ _ E).
  - intros H. inversion H; subst. exact He.
Qed.




End Capture.


(** ** The flight-booking loop *)

Lemma first_true_repeat (k from : nat) (tail : list bool) :
  first_true (repeat false k ++ true :: tail) from = Some (from + k).
Proof.
  revert from. induction k as [|k IH]; intros from; simpl.
  - f_equal. lia.
  - rewrite IH. f_equal. lia.
Qed.

Lemma first_true_none (k from : nat) : first_true (repeat false k) from = None.
Proof. revert from. induction k as [|k IH]; intros from; simpl; auto. Qed.

(** [np.argmax(~mask)] is the number of leading true entries when an entry is
    false, and 0 when none is. *)
Lemma argmax_not_first (mask : list (list bool)) (k : nat) (tail : list bool) :
  concat mask = repeat true k ++ false :: tail -> argmax_not mask = Ok k.
Proof.
  intros H. unfold argmax_not.
  destruct (concat mask) as [|b flat]; [destruct k; discriminate|].
  rewrite H, map_app, map_repeat. cbn [map negb].
  now rewrite first_true_repeat.
Qed.

Lemma argmax_not_full (mask : list (list bool)) (k : nat) :
  concat mask = repeat true (S k) -> argmax_not mask = Ok 0.
Proof.
  intros H. unfold argmax_not.
  destruct (concat mask) as [|b flat]; [discriminate|].
  rewrite H, map_repeat. cbn [negb]. now rewrite first_true_none.
Qed.

Section Agent.

Variable tokenizer : Tokenizer.
Variable json : JsonCodec.
Variable random : RandomGen.
Variable tools : Tools.
Variable Model : Type.
Variable generate : Batch -> Model -> Generated * Model.

Let State := AgentState random Model.
Let step := iteration tokenizer json random tools Model generate.
Let loop := agent_loop tokenizer json random tools Model generate.
Let marker := token_to_id tokenizer (py "[TOOL_CALLS]").

Lemma booking_status_keeps (row : list Z) (b b' : bool) :
  booking_status tokenizer json row b = Ok b' -> b = true -> b' = true.
Proof.
  unfold booking_status. intros H ->.
  destruct (np_where_eq row _ 0) as [|pos more]; [now inversion H|].
  destruct (raw_decode json _) as [[v n]|e].
  - destruct v; now inversion H.
  - destruct (parser_catches (exc_class e)); now inversion H.
Qed.

(** One pass through the body of the loop. *)
Lemma iteration_step (st st' : State) :
  step st = Ok st' ->
  iteration_count st' = S (iteration_count st) /\
  (flight_booked st = true -> flight_booked st' = true) /\
  (exists extension, messages st' = messages st ++ extension) /\
  (exists text lines,
     shown st' = shown st ++ ResponseText text :: map ParserLine lines).
Proof.
  subst step. unfold iteration.
  destruct (preprocess (messages st) default_sequence_length) as [batch|e];
    [|discriminate].
  destruct (generate batch (model st)) as [res m'].
  destruct (argmax_not (out_padding_mask res)) as [stop|e]; [|discriminate].
  destruct (first_row (out_token_ids res)) as [row|e]; [|discriminate].
  destruct (booking_status tokenizer json row (flight_booked st)) as [b|e] eqn:Hb;
    [|discriminate].
  destruct (try_parse_funccall tokenizer json random tools row (rng st))
    as [[[extension|e] g] lines]; [|discriminate].
  intros E. inversion E; subst; clear E. cbn.
  repeat split.
  - now apply (booking_status_keeps row (flight_booked st) b).
  - now exists extension.
  - exists (detokenize tokenizer (firstn stop row)), lines.
    now rewrite <- app_assoc.
Qed.

Lemma responses_shown_app (a b : list Shown) :
  responses_shown (a ++ b) = responses_shown a + responses_shown b.
Proof. unfold responses_shown. now rewrite filter_app, length_app. Qed.

Lemma parser_lines_shown (lines : list str) :
  responses_shown (map ParserLine lines) = 0 /\
  ~ In MaximumIterationsReached (map ParserLine lines).
Proof.
  induction lines as [|l lines [IH1 IH2]]; [split; [reflexivity|intros []]|].
  split; [exact IH1|]. intros [H|H]; [discriminate|contradiction].
Qed.

(** The loop leaves with its condition false, having only added to the
    messages and to the output. *)
Lemma agent_loop_ok (fuel : nat) :
  forall st st' : State,
    loop fuel st = Some (Ok st') ->
    negb (flight_booked st') && (iteration_count st' <? max_iterations) = false /\
    (iteration_count st <= max_iterations -> iteration_count st' <= max_iterations) /\
    (exists added, messages st' = messages st ++ added) /\
    responses_shown (shown st') + iteration_count st
      = responses_shown (shown st) + iteration_count st' /\
    (~ In MaximumIterationsReached (shown st) ->
     ~ In MaximumIterationsReached (shown st')).
Proof.
  subst loop.
  induction fuel as [|fuel IH]; intros st st' H; cbn [agent_loop] in H;
    destruct (negb (flight_booked st) && (iteration_count st <? max_iterations))
      eqn:Hcond.
  - discriminate.
  - inversion H; subst. repeat split; trivial. exists []. now rewrite app_nil_r.
  - fold step in H. destruct (step st) as [st1|e] eqn:Hstep; [|discriminate].
    apply iteration_step in Hstep.
    destruct Hstep as (Hcount & _ & (extension & Hmsg) & (text & lines & Hshown)).
    apply IH in H. destruct H as (Hstop & Hmax & (added & Hadded) & Hresp & Hno).
    apply andb_prop in Hcond. destruct Hcond as [_ Hlt].
    apply Nat.ltb_lt in Hlt.
    destruct (parser_lines_shown lines) as [Hzero Hnone].
    split; [exact Hstop|]. split; [intros _; apply Hmax; lia|].
    split; [exists (extension ++ added); now rewrite Hadded, Hmsg, app_assoc|].
    split.
    + rewrite Hshown in Hresp.
      change (ResponseText text :: map ParserLine lines)
        with ([ResponseText text] ++ map ParserLine lines) in Hresp.
      rewrite !responses_shown_app, Hzero in Hresp.
      change (responses_shown [ResponseText text]) with 1 in Hresp. lia.
    + intros Hst. apply Hno. rewrite Hshown. intros Hin.
      apply in_app_or in Hin. destruct Hin as [Hin|[Hin|Hin]];
        [contradiction|discriminate|contradiction].
  - inversion H; subst. repeat split; trivial. exists []. now rewrite app_nil_r.
Qed.

(** Fuel for the iterations that remain is enough. *)
Lemma agent_loop_runs (fuel : nat) :
  forall st : State,
    max_iterations - iteration_count st <= fuel ->
    exists r, loop fuel st = Some r.
Proof.
  subst loop.
  induction fuel as [|fuel IH]; intros st Hfuel; cbn [agent_loop];
    destruct (negb (flight_booked st) && (iteration_count st <? max_iterations))
      eqn:Hcond; try (eexists; reflexivity).
  - apply andb_prop in Hcond. destruct Hcond as [_ Hlt].
    apply Nat.ltb_lt in Hlt. lia.
  - fold step. destruct (step st) as [st1|e] eqn:Hstep; [|eexists; reflexivity].
    apply IH. apply iteration_step in Hstep. destruct Hstep as (Hcount & _). lia.
Qed.

(** A response whose first call object is malformed: the parser hands back
    the response alone. *)
Lemma try_parse_funccall_degrades
    (before after : list Z) (g : Rng random) (call : list (str * Value))
    (rest : list Value) (n : nat) :
  ~ In marker before ->
  raw_decode json (detokenize tokenizer after) = Ok (VList (VDict call :: rest), n) ->
  forallb is_dict rest = true ->
  malformed_call tools call ->
  exists g' lines,
    try_parse_funccall tokenizer json random tools (before ++ marker :: after) g
    = (Ok [before ++ marker :: after], g', lines).
Proof.
  intros Hbefore Hdec Hdicts Hbad. unfold try_parse_funccall.
  destruct (np_where_eq_first before after marker 0 Hbefore) as (more & Hpos).
  subst marker. rewrite Hpos. cbn [Nat.add].
  replace (skipn (length before + 1)
             (before ++ token_to_id tokenizer (py "[TOOL_CALLS]") :: after))
    with after.
  2:{ rewrite skipn_app, skipn_all2 by lia.
      replace (length before + 1 - length before) with 1 by lia. reflexivity. }
  rewrite Hdec. cbn [forallb is_dict andb]. rewrite Hdicts.
  destruct (call_loop_malformed tokenizer json random tools call rest [] g Hbad)
    as (e & g' & -> & Hc).
  rewrite Hc. eexists; eexists; reflexivity.
Qed.

End Agent.

End LoopFacts.
Import SequenceBuilder FunctionCalling Vocabulary Demo.
Import SequenceBuilderFacts.

(** * Sequence Builder: the claims *)

(** Claim C1.  For a user whose timestamp-sorted sequence [s] has
    [n >= MIN_SEQUENCE_LENGTH] entries, the builder makes [n-1] examples:
    the [n-2] examples with label positions [1 .. n-2] go to the train set
    and the single example whose label is the last (latest-timestamp) entry
    goes to the test set; these are exactly that user's share of the two
    lists the builder returns.  ([MIN_SEQUENCE_LENGTH] is 3 in the notebook;
    any value from 2 on will do.) *)
Theorem C1_examples_per_user
    (MAX MIN : nat) (ratings_df : list Row)
    (before after : Sequences) (u : Z) (s : list Movie) :
  2 <= MIN ->
  get_movie_sequence_per_user ratings_df = before ++ (u, s) :: after ->
  MIN <= length s ->
  let n := length s in
  let all_examples := generate_examples_from_user_sequences MAX MIN in
  exists train test : list Example,
    generate_examples_from_user_sequence MAX s = (train, test) /\
    length train + length test = n - 1 /\
    length test = 1 /\
    length train = n - 2 /\
    test = [example_at MAX s (n - 1)] /\
    map label_movie_id test = [movie_id (last s PAD)] /\
    (forall m, In m s -> (timestamp m <= timestamp (last s PAD))%Z) /\
    train = map (example_at MAX s) (seq 1 (n - 2)) /\
    all_examples (get_movie_sequence_per_user ratings_df) =
      (fst (all_examples before) ++ train ++ fst (all_examples after),
       snd (all_examples before) ++ test ++ snd (all_examples after)).
Proof.
  intros HMIN Hseqs Hlen n all_examples.
  exists (map (example_at MAX s) (seq 1 (n - 2))), [example_at MAX s (n - 1)].
  assert (Hn : 2 <= length s) by lia.
  assert (Hin : In (u, s) (get_movie_sequence_per_user ratings_df))
    by (rewrite Hseqs; apply in_or_app; right; now left).
  apply get_movie_sequence_per_user_spec in Hin. destruct Hin as [Hs Hne].
  repeat split.
  - now apply generate_examples_from_user_sequence_eq.
  - rewrite length_map, length_seq. simpl. subst n. lia.
  - now rewrite length_map, length_seq.
  - simpl. f_equal. unfold example_at. cbn [label_movie_id].
    destruct (exists_last Hne) as (l0 & z & E).
    subst n. rewrite E at 1 2 3. rewrite last_last, length_app. simpl.
    replace (length l0 + 1 - 1) with (length l0) by lia.
    now rewrite nth_middle.
  - intros m Hm. apply sorted_last_latest; trivial.
    rewrite Hs. apply sort_by_timestamp_sorted.
  - rewrite Hseqs. unfold all_examples.
    rewrite generate_examples_from_user_sequences_app.
    rewrite generate_examples_from_user_sequences_cons by trivial.
    rewrite generate_examples_from_user_sequence_eq by trivial.
    reflexivity.
Qed.

Lemma C1_examples_per_user_witness :
  exists train test : list Example,
    generate_examples_from_user_sequence 3 demo_sequence = (train, test) /\
    length train + length test = 3 /\
    length test = 1 /\
    length train = 2 /\
    test = [example_at 3 demo_sequence 3] /\
    map label_movie_id test = [40%Z] /\
    (forall m, In m demo_sequence -> (timestamp m <= 400)%Z) /\
    train = map (example_at 3 demo_sequence) [1; 2] /\
    generate_examples_from_user_sequences 3 3 (get_movie_sequence_per_user demo_ratings) =
      (train ++ [], test ++ []).
Proof.
  apply (C1_examples_per_user 3 3 demo_ratings [] [] 1%Z demo_sequence).
  - lia.
  - reflexivity.
  - simpl. lia.
Defined.

(** Claim C2 as stated fails: with [MAX_CONTEXT_LENGTH = 3] the first
    training example of the demo user has history [[10]] and context
    [[10; 0; 0]]; the sentinel entries follow the real movie id. *)
Lemma C2_left_padding_counterexample :
  let e := example_at 3 demo_sequence 1 in
  In e (fst (generate_examples_from_user_sequences 3 3
               (get_movie_sequence_per_user demo_ratings))) /\
  context_movie_id e = [10; 0; 0]%Z /\
  ~ left_padded 3 [10%Z] (context_movie_id e).
Proof.
  cbv zeta. split; [|split].
  - vm_compute. now left.
  - reflexivity.
  - vm_compute. discriminate.
Qed.

(** Claim C2, amended.  Every context the builder produces has length
    exactly [MAX_CONTEXT_LENGTH]; it is the window of at most
    [MAX_CONTEXT_LENGTH] entries that ends just before the label, followed by
    the sentinel zeros: when the history is shorter than the window the
    padding is on the right. *)
Theorem C2_context_length_right_padded
    (MAX MIN : nat) (sequences : Sequences) (e : Example) :
  In e (fst (generate_examples_from_user_sequences MAX MIN sequences)
          ++ snd (generate_examples_from_user_sequences MAX MIN sequences)) ->
  length (context_movie_id e) = MAX /\
  exists u s i,
    In (u, s) sequences /\ 1 <= i < length s /\
    label_movie_id e = movie_id (nth i s PAD) /\
    length (slice s (i - MAX) i) = Nat.min i MAX /\
    context_movie_id e =
      map movie_id (slice s (i - MAX) i) ++ repeat 0%Z (MAX - i).
Proof.
  intros H. apply examples_origin in H.
  destruct H as (u & s & i & Hin & _ & Hi & ->).
  split.
  - apply example_at_context_length. lia.
  - exists u, s, i. repeat split; trivial; try lia.
    + rewrite slice_length; lia.
    + apply example_at_context. lia.
Qed.

Lemma C2_context_length_right_padded_witness :
  let context := [10; 20; 0; 0; 0; 0; 0; 0; 0; 0]%Z in
  length context = notebook_MAX_CONTEXT_LENGTH /\
  exists u s i,
    In (u, s) [(1%Z, demo_sequence)] /\ 1 <= i < length s /\
    30%Z = movie_id (nth i s PAD) /\
    length (slice s (i - notebook_MAX_CONTEXT_LENGTH) i)
      = Nat.min i notebook_MAX_CONTEXT_LENGTH /\
    context =
      map movie_id (slice s (i - notebook_MAX_CONTEXT_LENGTH) i)
        ++ repeat 0%Z (notebook_MAX_CONTEXT_LENGTH - i).
Proof.
  apply (C2_context_length_right_padded
           notebook_MAX_CONTEXT_LENGTH notebook_MIN_SEQUENCE_LENGTH
           [(1%Z, demo_sequence)]
           (mkExample [10; 20; 0; 0; 0; 0; 0; 0; 0; 0]%Z 30%Z)).
  vm_compute. right. now left.
Defined.

(** Claim C3 as stated fails: for the four films the train set has two
    examples, padded on the right, not the single example
    [([0; 10; 20], 30)]. *)
Lemma C3_scenario_counterexample :
  generate_examples_from_user_sequences 3 3 (get_movie_sequence_per_user demo_ratings)
  <> ([mkExample [0; 10; 20]%Z 30%Z], [mkExample [10; 20; 30]%Z 40%Z]).
Proof. vm_compute. discriminate. Qed.

(** Claim C3, amended.  One user watching the films 10, 20, 30, 40 at
    strictly increasing timestamps, with [MAX_CONTEXT_LENGTH = 3] and
    [MIN_SEQUENCE_LENGTH = 3]: the train set is
    [([10; 0; 0], 20); ([10; 20; 0], 30)] and the test set is
    [([10; 20; 30], 40)]. *)
Theorem C3_scenario (user r1 r2 r3 r4 t1 t2 t3 t4 : Z) :
  (t1 < t2 < t3)%Z -> (t3 < t4)%Z ->
  generate_examples_from_user_sequences 3 3
    (get_movie_sequence_per_user
       [mkRow user 10 r1 t1; mkRow user 20 r2 t2;
        mkRow user 30 r3 t3; mkRow user 40 r4 t4]) =
  ([mkExample [10; 0; 0]%Z 20%Z; mkExample [10; 20; 0]%Z 30%Z],
   [mkExample [10; 20; 30]%Z 40%Z]).
Proof.
  intros H123 H34.
  unfold get_movie_sequence_per_user.
  cbn [fold_left dict_append row_user_id row_timestamp row_movie_id row_rating].
  repeat (rewrite Z.eqb_refl; cbn [dict_append app]).
  cbn [map sort_by_timestamp fold_right insert_by_timestamp timestamp].
  destruct (Z.leb_spec t3 t4); [|lia]. cbn [insert_by_timestamp timestamp].
  destruct (Z.leb_spec t2 t3); [|lia]. cbn [insert_by_timestamp timestamp].
  destruct (Z.leb_spec t1 t2); [|lia].
  reflexivity.
Qed.

Lemma C3_scenario_witness :
  generate_examples_from_user_sequences 3 3 (get_movie_sequence_per_user demo_ratings) =
  ([mkExample [10; 0; 0]%Z 20%Z; mkExample [10; 20; 0]%Z 30%Z],
   [mkExample [10; 20; 30]%Z 40%Z]).
Proof.
  apply (C3_scenario 1 5 5 4 4 100 200 300 400); lia.
Defined.

(** Claim C8, amended.  Round trip: for every example the builder produces
    from a ratings table in which no film has the id 0 (the value reserved
    for the sentinel), the non-zero entries of the context, in order,
    followed by the label, are a contiguous run of that user's
    timestamp-sorted sequence: the context is the window that ends just
    before the label and the label is the entry right after it. *)
Theorem C8_round_trip (MAX MIN : nat) (ratings_df : list Row) (e : Example) :
  (forall r, In r ratings_df -> row_movie_id r <> 0%Z) ->
  In e (fst (generate_examples_from_user_sequences MAX MIN
               (get_movie_sequence_per_user ratings_df))
          ++ snd (generate_examples_from_user_sequences MAX MIN
               (get_movie_sequence_per_user ratings_df))) ->
  exists (u : Z) (s : list Movie) (i : nat),
    In (u, s) (get_movie_sequence_per_user ratings_df) /\
    s = sort_by_timestamp (rows_of u ratings_df) /\
    StronglySorted timestamp_le s /\
    1 <= i < length s /\
    non_sentinel (context_movie_id e) = map movie_id (slice s (i - MAX) i) /\
    label_movie_id e = movie_id (nth i s PAD) /\
    map movie_id s =
      map movie_id (firstn (i - MAX) s)
        ++ (non_sentinel (context_movie_id e) ++ [label_movie_id e])
        ++ map movie_id (skipn (S i) s).
Proof.
  intros Hids H. apply examples_origin in H.
  destruct H as (u & s & i & Hin & _ & Hi & ->).
  exists u, s, i.
  assert (Hs : s = sort_by_timestamp (rows_of u ratings_df))
    by now apply get_movie_sequence_per_user_spec.
  assert (Hctx : non_sentinel (context_movie_id (example_at MAX s i))
                 = map movie_id (slice s (i - MAX) i)).
  { rewrite example_at_context by lia. apply non_sentinel_padded.
    apply Forall_forall. intros x Hx.
    apply in_map_iff in Hx. destruct Hx as (m & <- & Hm).
    apply slice_incl in Hm.
    destruct (sequence_entries_are_rows _ _ _ _ Hin Hm) as (r & Hr & _ & ->).
    simpl. now apply Hids. }
  repeat split; trivial; try lia.
  - rewrite Hs. apply sort_by_timestamp_sorted.
  - rewrite Hctx. unfold example_at at 1. cbn [label_movie_id].
    rewrite (slice_contiguous s (i - MAX) (S i)) at 1 by lia.
    rewrite (slice_snoc s (i - MAX) i PAD) by lia.
    now rewrite !map_app.
Qed.

Lemma C8_round_trip_witness :
  exists (u : Z) (s : list Movie) (i : nat),
    In (u, s) (get_movie_sequence_per_user demo_ratings) /\
    s = sort_by_timestamp (rows_of u demo_ratings) /\
    StronglySorted timestamp_le s /\
    1 <= i < length s /\
    non_sentinel [10; 20; 0]%Z = map movie_id (slice s (i - 3) i) /\
    30%Z = movie_id (nth i s PAD) /\
    map movie_id s =
      map movie_id (firstn (i - 3) s)
        ++ (non_sentinel [10; 20; 0]%Z ++ [30%Z])
        ++ map movie_id (skipn (S i) s).
Proof.
  apply (C8_round_trip 3 3 demo_ratings (mkExample [10; 20; 0]%Z 30%Z)).
  - intros r Hr. simpl in Hr.
    destruct Hr as [<-|[<-|[<-|[<-|[]]]]]; discriminate.
  - vm_compute. right. now left.
Defined.

(** The round trip rests on 0 being reserved for the sentinel: a film with
    id 0 in the ratings would be dropped from the context together with the
    padding. *)
Remark round_trip_needs_reserved_zero :
  let ratings := [mkRow 1 10 5 100; mkRow 1 0 5 200; mkRow 1 30 4 300; mkRow 1 40 4 400] in
  snd (generate_examples_from_user_sequences 3 3 (get_movie_sequence_per_user ratings))
    = [mkExample [10; 0; 30]%Z 40%Z] /\
  non_sentinel [10; 0; 30]%Z ++ [40%Z] = [10; 30; 40]%Z.
Proof. split; reflexivity. Qed.

(** Claim C8 as stated fails for a ratings table in which a film has the id
    0: that entry is dropped from the context together with the padding, and
    what is left, followed by the label, is no contiguous run of the user's
    sequence. *)
Lemma C8_round_trip_counterexample :
  let ratings := [mkRow 1 10 5 100; mkRow 1 0 5 200; mkRow 1 30 4 300; mkRow 1 40 4 400] in
  let sequences := get_movie_sequence_per_user ratings in
  let e := mkExample [10; 0; 30]%Z 40%Z in
  In e (snd (generate_examples_from_user_sequences 3 3 sequences)) /\
  (forall u s, In (u, s) sequences -> map movie_id s = [10; 0; 30; 40]%Z) /\
  ~ exists before after : list Z,
      [10; 0; 30; 40]%Z
      = before ++ (non_sentinel (context_movie_id e) ++ [label_movie_id e]) ++ after.
Proof.
  cbv zeta. split; [vm_compute; now left|]. split.
  - intros u s H. vm_compute in H. destruct H as [H|[]].
    inversion H; subst. reflexivity.
  - intros (before & after & H). vm_compute in H.
    destruct before as [|a [|b before]].
    + inversion H.
    + inversion H.
    + apply (f_equal (@length Z)) in H. cbn [length app] in H.
      rewrite length_app in H. cbn [length] in H. lia.
Qed.

(** * Function calling: the claims *)

Import FunctionCallingFacts RegexFacts.

(** Claim C4 as stated fails: from the block with payload [print(f(1,2))]
    the function returns the payload as it stands, [print(f(1,2))], not
    [f(1,2)]. *)
Lemma C4_extract_counterexample :
  let text := fence_open ++ [newline] ++ print_call ++ fence_close in
  extract_tool_call text = Some print_call /\
  extract_tool_call text <> Some (py "f(1,2)").
Proof. cbv zeta. split; vm_compute; [reflexivity|discriminate]. Qed.

(** Claim C4, amended.  When the first [```tool_code] fence of the text opens
    a block whose payload is [print(f(1,2))], possibly with whitespace around
    it, [extract_tool_call] returns the string [print(f(1,2))] with the
    surrounding whitespace removed; and it returns [None] exactly when the
    text holds no fenced block. *)
Theorem C4_extract_tool_call :
  (forall pre ws pad1 pad2 post : str,
     find fence_open (pre ++ fence_open) = Some (length pre) ->
     blank ws = true -> blank pad1 = true -> blank pad2 = true ->
     extract_tool_call
       (pre ++ fence_open ++ ws ++ [newline] ++ pad1 ++ print_call ++ pad2
            ++ fence_close ++ post)
     = Some print_call) /\
  (forall text : str,
     extract_tool_call text = None <-> ~ has_tool_code_block text).
Proof.
  split.
  - intros pre ws pad1 pad2 post Hfind Hws Hpad1 Hpad2.
    replace (pre ++ fence_open ++ ws ++ [newline] ++ pad1 ++ print_call ++ pad2
                 ++ fence_close ++ post)
      with (pre ++ fence_open ++ (ws ++ [newline] ++ pad1) ++ print_call ++ pad2
                ++ fence_close ++ post)
      by (now rewrite <- !app_assoc).
    apply (extract_tool_call_fenced pre (ws ++ [newline] ++ pad1)
             (py "rint(f(1,2))") pad2 post "p"%char); trivial.
    + unfold blank in *. rewrite !forallb_app, Hws, Hpad1. reflexivity.
    + apply in_or_app. right. now left.
    + intros H. vm_compute in H. intuition discriminate.
  - intros text. split.
    + intros Hnone Hblock. now apply extract_tool_call_complete in Hblock.
    + intros Hno. destruct (extract_tool_call text) as [payload|] eqn:E; trivial.
      exfalso. apply Hno. now apply (extract_tool_call_sound text payload).
Qed.

Lemma C4_extract_tool_call_witness :
  extract_tool_call
    (py "Sure. " ++ fence_open ++ py " " ++ [newline] ++ py "  " ++ print_call
       ++ py " " ++ fence_close ++ py "<end_of_turn>")
  = Some print_call /\
  extract_tool_call (py "No tool is needed here.") = None.
Proof.
  split.
  - apply (proj1 C4_extract_tool_call (py "Sure. ") (py " ") (py "  ") (py " ")
             (py "<end_of_turn>")); reflexivity.
  - apply (proj2 C4_extract_tool_call (py "No tool is needed here.")).
    intros Hblock. apply extract_tool_call_complete in Hblock.
    apply Hblock. reflexivity.
Defined.

(** Claim C9.  For a non-empty list of token sequences and a positive
    [sequence_length], [preprocess] returns a dictionary whose [token_ids]
    has shape [(1, sequence_length)]: the concatenated tokens cut to
    [sequence_length] and filled up with zeros on the right; its
    [padding_mask] marks exactly the first
    [min (total length) sequence_length] positions. *)
Theorem C9_preprocess_shape (messages : list (list Z)) (sequence_length : Z) :
  messages <> [] ->
  (0 < sequence_length)%Z ->
  let total := length (concat messages) in
  let n := Z.to_nat sequence_length in
  exists batch : Batch,
    preprocess messages sequence_length = Ok batch /\
    token_ids batch = [firstn n (concat messages) ++ repeat 0%Z (n - total)] /\
    length (token_ids batch) = 1 /\
    Forall (fun row => length row = n) (token_ids batch) /\
    padding_mask batch =
      [repeat 1%Z (Nat.min total n) ++ repeat 0%Z (n - Nat.min total n)].
Proof.
  intros Hne Hpos total n.
  unfold preprocess.
  destruct messages as [|m ms]; [contradiction|].
  cbn [np_concatenate]. fold total.
  assert (Hshape : shape1 [concat (m :: ms)] = Z.of_nat total) by reflexivity.
  rewrite Hshape.
  assert (Hn : sequence_length = Z.of_nat n) by (subst n; lia).
  destruct (Z.gtb_spec (Z.of_nat total) sequence_length) as [Hlong|Hshort].
  - (* truncated *)
    eexists. split; [reflexivity|].
    cbn [token_ids padding_mask map].
    unfold slice_upto. destruct (Z.ltb_spec sequence_length 0); [lia|].
    fold n. unfold shape1. cbn [hd].
    assert (Hlen : length (firstn n (concat (m :: ms))) = n)
      by (rewrite length_firstn; fold total; lia).
    rewrite Hlen.
    replace (Z.to_nat (Z.max 0 (sequence_length - Z.of_nat n))) with 0 by lia.
    replace (n - total) with 0 by lia.
    replace (Nat.min total n) with n by lia.
    repeat split.
    + constructor; [|constructor]. now rewrite length_app, Hlen.
    + rewrite Hn at 1. rewrite mask_prefix by lia. reflexivity.
  - (* padded *)
    eexists. split; [reflexivity|].
    cbn [token_ids padding_mask map]. rewrite Hshape.
    replace (Z.to_nat (Z.max 0 (sequence_length - Z.of_nat total))) with (n - total) by lia.
    rewrite firstn_all2 by (fold total; lia).
    replace (Nat.min total n) with total by lia.
    repeat split.
    + constructor; [|constructor]. rewrite length_app, repeat_length. fold total. lia.
    + rewrite Hn at 1. rewrite mask_prefix by lia. reflexivity.
Qed.

Lemma C9_preprocess_shape_witness :
  exists batch : Batch,
    preprocess [[1; 2; 3]; [4; 5]]%Z 8 = Ok batch /\
    token_ids batch = [[1; 2; 3; 4; 5; 0; 0; 0]%Z] /\
    length (token_ids batch) = 1 /\
    Forall (fun row => length row = 8) (token_ids batch) /\
    padding_mask batch = [[1; 1; 1; 1; 1; 0; 0; 0]%Z].
Proof.
  apply (C9_preprocess_shape [[1; 2; 3]; [4; 5]]%Z 8).
  - discriminate.
  - lia.
Defined.

Section CaptureClaims.

Variable World : Type.
Variable Namespace : Type.
Variable new_dict : World -> Namespace * World.
Variable py_eval : str -> Namespace -> Namespace -> Buffer -> World -> Run World Value.
Variable py_exec : str -> Namespace -> Namespace -> Buffer -> World -> Run World unit.
Variable exc_str : PyExc -> World -> Result str * World.

Let capture := capture_code_output World Namespace new_dict py_eval py_exec exc_str.



End CaptureClaims.





Section ParserClaims.

Variable tokenizer : Tokenizer.
Variable json : JsonCodec.
Variable random : RandomGen.
Variable tools : Tools.

Let parse := try_parse_funccall tokenizer json random tools.


(** Claim C7, amended.  The response carries the [[TOOL_CALLS]] marker.
    [try_parse_funccall] returns the original response as the sole element,
    and raises nothing, when the JSON decoder rejects the payload with a
    [JSONDecodeError]; when it decodes to something that is not a list of
    objects; and when, the calls before it having gone through, a call object
    has no [name], or a [name] that cannot be looked up, or names a
    registered tool and has no [arguments], or [arguments] that are not an
    object, or arguments the tool rejects with a [TypeError], [ValueError] or
    [KeyError]. *)
Theorem C7_malformed_payload_degrades
    (response : list Z) (g : Rng random) (pos : nat) (more : list nat) :
  np_where_eq response (token_to_id tokenizer (py "[TOOL_CALLS]")) 0 = pos :: more ->
  let payload := detokenize tokenizer (skipn (pos + 1) response) in
  let result := fst (fst (parse response g)) in
  (forall e, raw_decode json payload = Raise e ->
     exc_class e = JSONDecodeError -> result = Ok [response]) /\
  (forall v n, raw_decode json payload = Ok (v, n) ->
     not_list_of_dicts v -> result = Ok [response]) /\
  (forall good bad rest n res g',
     raw_decode json payload = Ok (VList (good ++ VDict bad :: rest), n) ->
     forallb is_dict (good ++ VDict bad :: rest) = true ->
     call_loop tokenizer json random tools good [] g = (Ok res, g') ->
     malformed_call tools bad ->
     result = Ok [response]).
Proof.
  intros Hpos payload result. subst result parse.
  unfold try_parse_funccall. rewrite Hpos. fold payload. repeat split.
  - intros e Hdec Hcls. rewrite Hdec. unfold parser_catches. now rewrite Hcls.
  - intros v n Hdec Hv. rewrite Hdec.
    destruct v; trivial. simpl in Hv. now rewrite Hv.
  - intros good bad rest n res g' Hdec Hdicts Hgood Hbad. rewrite Hdec, Hdicts.
    rewrite call_loop_app, Hgood.
    destruct (call_loop_malformed tokenizer json random tools bad rest res g' Hbad)
      as (e & g2 & -> & Hc).
    now rewrite Hc.
Qed.

End ParserClaims.



Lemma C7_malformed_payload_degrades_witness :
  let bad_json := demo_response "book it" (json_text "[{'name': 'known_tool', ") in
  let no_list := demo_response "" (json_text "{'name':'known_tool'}") in
  let no_arguments :=
    demo_response "" (json_text "[{'name':'unknown_tool'},{'name':'known_tool'}]") in
  fst (fst (demo_parse bad_json 0)) = Ok [bad_json] /\
  fst (fst (demo_parse no_list 0)) = Ok [no_list] /\
  fst (fst (demo_parse no_arguments 0)) = Ok [no_arguments].
Proof.
  cbv zeta.
  pose proof (C7_malformed_payload_degrades demo_tokenizer demo_json demo_random demo_tools)
    as H.
  split; [|split].
  - apply (proj1 (H (demo_response "book it" (json_text "[{'name': 'known_tool', "))
                    0 7 [] eq_refl)
             (mkExc JSONDecodeError (py "Expecting value"))); reflexivity.
  - apply (proj1 (proj2 (H (demo_response "" (json_text "{'name':'known_tool'}"))
                           0 0 [] eq_refl))
             (VDict [(py "name", VStr (py "known_tool"))]) 21); [reflexivity|exact I].
  - apply (proj2 (proj2 (H (demo_response ""
                              (json_text "[{'name':'unknown_tool'},{'name':'known_tool'}]"))
                           0 0 [] eq_refl))
             [VDict [(py "name", VStr (py "unknown_tool"))]]
             [(py "name", VStr (py "known_tool"))] [] 47 [] 0); try reflexivity.
    apply (missing_arguments _ _ (py "known_tool") known_tool); reflexivity.
Defined.

(** Claim C7 as stated fails.  A call object without [arguments] that names
    an unknown tool is skipped before its arguments are looked at: the
    parser returns the empty list, not the original response.  And
    arguments of the wrong type are not detected by the parser: the guide's
    [book_flight], declared with a numeric [id], accepts a string and a
    result block comes back. *)
Lemma C7_malformed_payload_counterexample :
  let skipped := demo_response "" (json_text "[{'name':'unknown_tool'}]") in
  let wrong_type :=
    demo_response "" (json_text "[{'name':'book_flight','arguments':{'id':'LH123'}}]") in
  fst (fst (demo_parse skipped 0)) = Ok [] /\
  fst (fst (demo_parse skipped 0)) <> Ok [skipped] /\
  fst (fst (demo_parse wrong_type 0)) <> Ok [wrong_type] /\
  exists block, fst (fst (demo_parse wrong_type 0)) = Ok [[8%Z]; block; [9%Z]].
Proof.
  cbv zeta.
  split; [vm_compute; reflexivity|].
  split; [vm_compute; discriminate|].
  split; [vm_compute; discriminate|].
  eexists. vm_compute. reflexivity.
Qed.

(** * Sequence Builder and the rest of the notebook: further properties *)

Import NotebookRest SequenceBuilderMoreFacts NotebookRestFacts.

(** X1.  [get_movie_sequence_per_user] gives one entry per user that has a
    row, and none to anybody else: the user ids are distinct, no sequence is
    empty, and each sequence holds exactly that user's rows, ordered by
    timestamp. *)
Theorem X1_sequences_per_user (ratings_df : list Row) :
  let sequences := get_movie_sequence_per_user ratings_df in
  NoDup (map fst sequences) /\
  (forall u s, In (u, s) sequences ->
     s <> [] /\
     Permutation s (rows_of u ratings_df) /\
     StronglySorted timestamp_le s) /\
  (forall r, In r ratings_df -> In (row_user_id r) (map fst sequences)).
Proof.
  cbv zeta. split; [apply get_movie_sequence_per_user_NoDup|]. split.
  - intros u s H. apply get_movie_sequence_per_user_spec in H.
    destruct H as [-> Hne]. repeat split; trivial.
    + apply sort_by_timestamp_perm.
    + apply sort_by_timestamp_sorted.
  - intros r Hr. rewrite get_movie_sequence_per_user_eq, map_map. simpl.
    now apply group_rows_spec.
Qed.

(** X2.  The sort is stable: within a user's sequence, the entries that
    share a timestamp stand in the order of their rows in the ratings. *)
Theorem X2_equal_timestamps_keep_input_order
    (ratings_df : list Row) (u : Z) (s : list Movie) (t : Z) :
  In (u, s) (get_movie_sequence_per_user ratings_df) ->
  at_time t s = at_time t (rows_of u ratings_df).
Proof.
  intros H. apply get_movie_sequence_per_user_spec in H. destruct H as [-> _].
  apply at_time_sort.
Qed.

Lemma X2_equal_timestamps_keep_input_order_witness :
  let ratings :=
    [mkRow 1 10 5 100; mkRow 2 20 5 200; mkRow 1 30 4 50; mkRow 1 7 3 50] in
  let s := [mkMovie 30 50 4; mkMovie 7 50 3; mkMovie 10 100 5] in
  at_time 50 s = at_time 50 (rows_of 1 ratings).
Proof.
  cbv zeta.
  apply (X2_equal_timestamps_keep_input_order
           [mkRow 1 10 5 100; mkRow 2 20 5 200; mkRow 1 30 4 50; mkRow 1 7 3 50] 1).
  vm_compute. now left.
Defined.

(** X3.  Counting the output: with [MIN_SEQUENCE_LENGTH >= 2] there is one
    test example per user whose sequence reaches [MIN_SEQUENCE_LENGTH], and
    the number of train examples is the sum of [n - 2] over those users. *)
Theorem X3_example_counts (MAX MIN : nat) (sequences : Sequences) :
  2 <= MIN ->
  let '(train, test) := generate_examples_from_user_sequences MAX MIN sequences in
  length test = length (kept MIN sequences) /\
  length train
    = list_sum (map (fun entry => length (snd entry) - 2) (kept MIN sequences)).
Proof.
  intros HMIN.
  pose proof (generate_examples_counts MAX MIN sequences HMIN) as H.
  destruct (generate_examples_from_user_sequences MAX MIN sequences) as [train test].
  exact H.
Qed.

Lemma X3_example_counts_witness :
  let sequences :=
    [(1%Z, demo_sequence); (2%Z, [mkMovie 5 10 4; mkMovie 6 20 4]);
     (3%Z, [mkMovie 5 10 4; mkMovie 6 20 4; mkMovie 7 30 4])] in
  let '(train, test) :=
    generate_examples_from_user_sequences
      notebook_MAX_CONTEXT_LENGTH notebook_MIN_SEQUENCE_LENGTH sequences in
  length test = 2 /\ length train = 3.
Proof.
  cbv zeta.
  apply (X3_example_counts notebook_MAX_CONTEXT_LENGTH notebook_MIN_SEQUENCE_LENGTH
           [(1%Z, demo_sequence); (2%Z, [mkMovie 5 10 4; mkMovie 6 20 4]);
            (3%Z, [mkMovie 5 10 4; mkMovie 6 20 4; mkMovie 7 30 4])]).
  unfold notebook_MIN_SEQUENCE_LENGTH. lia.
Defined.

(** X4.  A user with fewer than [MIN_SEQUENCE_LENGTH] interactions is left
    out altogether: the output is the same as without that user. *)
Theorem X4_short_users_are_left_out
    (MAX MIN : nat) (before after : Sequences) (u : Z) (s : list Movie) :
  length s < MIN ->
  generate_examples_from_user_sequences MAX MIN (before ++ (u, s) :: after) =
  generate_examples_from_user_sequences MAX MIN (before ++ after).
Proof.
  intros H.
  rewrite !generate_examples_from_user_sequences_app.
  now rewrite generate_examples_from_user_sequences_short.
Qed.

Lemma X4_short_users_are_left_out_witness :
  generate_examples_from_user_sequences 10 3
    ([(1%Z, demo_sequence)] ++ (2%Z, [mkMovie 5 10 4; mkMovie 6 20 4]) :: []) =
  generate_examples_from_user_sequences 10 3 ([(1%Z, demo_sequence)] ++ []).
Proof.
  apply (X4_short_users_are_left_out 10 3 [(1%Z, demo_sequence)] [] 2
           [mkMovie 5 10 4; mkMovie 6 20 4]).
  simpl. lia.
Defined.

(** X5.  No leak from the test example into training: when a user has not
    rated a film twice, the film of the user's last interaction is the label
    of none of that user's train examples and stands in none of their
    contexts (id 0 apart, which is the padding). *)
Theorem X5_last_interaction_stays_out_of_training
    (MAX : nat) (s : list Movie) (e : Example) :
  NoDup (map movie_id s) ->
  In e (fst (generate_examples_from_user_sequence MAX s)) ->
  let last_id := movie_id (last s PAD) in
  label_movie_id e <> last_id /\
  (last_id <> 0%Z -> ~ In last_id (context_movie_id e)).
Proof.
  intros Hnd He.
  destruct (Nat.le_gt_cases 2 (length s)) as [Hn|Hn].
  2:{ unfold generate_examples_from_user_sequence in He.
      replace (length s - 1) with 0 in He by lia. destruct He. }
  rewrite generate_examples_from_user_sequence_eq in He by trivial.
  cbn [fst] in He. apply in_map_iff in He. destruct He as (i & <- & Hi).
  apply in_seq in Hi.
  assert (Hs : s = removelast s ++ [last s PAD])
    by (apply app_removelast_last; intros ->; simpl in Hn; lia).
  assert (Hout : forall m, In m (removelast s) -> movie_id m <> movie_id (last s PAD)).
  { intros m Hm E. rewrite Hs, map_app in Hnd. simpl in Hnd.
    apply NoDup_remove_2 in Hnd. apply Hnd. rewrite app_nil_r.
    rewrite <- E. now apply in_map. }
  cbv zeta. split.
  - unfold example_at. cbn [label_movie_id]. apply Hout.
    apply (firstn_incl_removelast s (S i)); [lia|].
    apply nth_In_firstn. lia.
  - intros Hnz Hin. rewrite example_at_context in Hin by lia.
    apply in_app_or in Hin. destruct Hin as [Hin|Hin].
    + apply in_map_iff in Hin. destruct Hin as (m & E & Hm).
      apply (Hout m); trivial.
      apply (firstn_incl_removelast s i); [lia|].
      now apply (slice_incl_firstn s (i - MAX)).
    + apply repeat_spec in Hin. congruence.
Qed.

Lemma X5_last_interaction_stays_out_of_training_witness :
  (20%Z <> 40%Z) /\ (40%Z <> 0%Z -> ~ In 40%Z [10; 0; 0]%Z).
Proof.
  apply (X5_last_interaction_stays_out_of_training 3 demo_sequence
           (mkExample [10; 0; 0]%Z 20%Z)).
  - vm_compute. repeat constructor; simpl; intuition discriminate.
  - vm_compute. now left.
Defined.

(** X6.  [list_of_dicts_to_dict_of_lists] turns rows into columns: under
    every key stands the list of the values the dictionaries hold for that
    key, in the order of the dictionaries; a dictionary without the key adds
    nothing, and a key that no dictionary has is missing from the result. *)
Theorem X6_dict_of_lists_columns (V : Type)
    (list_of_dicts : list (list (str * V))) (key : str) :
  column (list_of_dicts_to_dict_of_lists list_of_dicts) key =
    match flat_map (values_of key) list_of_dicts with
    | [] => None
    | values => Some values
    end.
Proof.
  unfold list_of_dicts_to_dict_of_lists. rewrite column_dicts. simpl.
  now destruct (flat_map (values_of key) list_of_dicts).
Qed.

(** X7.  On the builder's examples the result has the two columns
    [context_movie_id] and [label_movie_id], in this order, each with one
    entry per example, so that the i-th context and the i-th label belong to
    the same example.  From an empty list of examples comes a dictionary
    without keys. *)
Theorem X7_example_columns (examples : list Example) :
  list_of_dicts_to_dict_of_lists (map example_items examples) =
    match examples with
    | [] => []
    | _ =>
        [(py "context_movie_id",
          map (fun e => VList (map VInt (context_movie_id e))) examples);
         (py "label_movie_id", map (fun e => VInt (label_movie_id e)) examples)]
    end.
Proof.
  destruct examples as [|e es]; [reflexivity|].
  unfold list_of_dicts_to_dict_of_lists.
  cbn [map fold_left example_items column_append].
  replace (str_eqb (py "context_movie_id") (py "label_movie_id")) with false
    by reflexivity.
  cbn [column_append].
  apply (example_columns es [VList (map VInt (context_movie_id e))]
           [VInt (label_movie_id e)]).
Qed.

(** X8.  Looking up titles never fails on what the builder produced: when
    every rated film has a row in the movies table, every entry of every
    context, the padding 0 included, and every label is a key of
    [movie_id_to_movie_title]; the padding maps to the empty title. *)
Theorem X8_titles_cover_the_examples
    (MAX MIN : nat) (ratings_df : list Row) (movies_df : list (Z * str))
    (e : Example) (id : Z) :
  (forall r, In r ratings_df -> In (row_movie_id r) (map fst movies_df)) ->
  In e (fst (generate_examples_from_user_sequences MAX MIN
               (get_movie_sequence_per_user ratings_df))
          ++ snd (generate_examples_from_user_sequences MAX MIN
               (get_movie_sequence_per_user ratings_df))) ->
  In id (context_movie_id e ++ [label_movie_id e]) ->
  title_get (movie_id_to_movie_title movies_df) id <> None /\
  title_get (movie_id_to_movie_title movies_df) 0 = Some [].
Proof.
  intros Hmovies He Hid. unfold movie_id_to_movie_title.
  split; [|apply title_get_set_same].
  apply examples_origin in He. destruct He as (u & s & i & Hus & _ & Hi & ->).
  assert (Hrow : forall m, In m s ->
            title_get (title_set
              (fold_left (fun d '(movie_id, title) => title_set d movie_id title)
                 movies_df []) 0 []) (movie_id m) <> None).
  { intros m Hm.
    destruct (sequence_entries_are_rows _ _ _ _ Hus Hm) as (r & Hr & _ & ->).
    apply title_set_keeps, titles_cover. left. now apply Hmovies. }
  apply in_app_or in Hid. destruct Hid as [Hid|[<-|[]]].
  - rewrite example_at_context in Hid by lia.
    apply in_app_or in Hid. destruct Hid as [Hid|Hid].
    + apply in_map_iff in Hid. destruct Hid as (m & <- & Hm).
      apply Hrow. now apply (slice_incl s (i - MAX) i).
    + apply repeat_spec in Hid. subst id. now rewrite title_get_set_same.
  - unfold example_at. cbn [label_movie_id]. apply Hrow. apply nth_In. lia.
Qed.

Lemma X8_titles_cover_the_examples_witness :
  let movies :=
    [(10%Z, py "Toy Story"); (20%Z, py "Heat"); (30%Z, py "Casino"); (40%Z, py "Babe")] in
  title_get (movie_id_to_movie_title movies) 0 <> None /\
  title_get (movie_id_to_movie_title movies) 0 = Some [].
Proof.
  cbv zeta.
  apply (X8_titles_cover_the_examples 3 3 demo_ratings
           [(10%Z, py "Toy Story"); (20%Z, py "Heat"); (30%Z, py "Casino");
            (40%Z, py "Babe")]
           (mkExample [10; 0; 0]%Z 20%Z) 0).
  - intros r Hr. simpl in Hr.
    destruct Hr as [<-|[<-|[<-|[<-|[]]]]]; simpl; auto.
  - vm_compute. now left.
  - simpl. auto.
Defined.

(** * The structured call parser and [preprocess]: further properties *)

Import GuideRest ParserMoreFacts.

Section ParserExtras.

Variable tokenizer : Tokenizer.
Variable json : JsonCodec.
Variable random : RandomGen.
Variable tools : Tools.

Let parse := try_parse_funccall tokenizer json random tools.
Let marker := token_to_id tokenizer (py "[TOOL_CALLS]").

(** X9.  A response without the [[TOOL_CALLS]] token comes back as the sole
    element; no identifier is drawn from the random generator and nothing is
    printed. *)
Theorem X9_no_marker_no_effect (response : list Z) (g : Rng random) :
  ~ In marker response ->
  parse response g = (Ok [response], g, []).
Proof.
  intros H. unfold parse, try_parse_funccall. fold marker.
  now rewrite np_where_eq_none.
Qed.

(** X10.  Only the first [[TOOL_CALLS]] token counts, and when the payload
    after it is a list of objects that the loop carries out without an
    exception, the result is one block per call naming a registered tool,
    each block being the [[TOOL_RESULTS]] token, the tokens of a JSON text
    and the [[/TOOL_RESULTS]] token; every call object, skipped or not,
    takes one identifier from the generator; nothing is printed. *)
Theorem X10_result_is_blocks
    (before after : list Z) (g g' : Rng random) (items : list Value) (n : nat)
    (res : list (list Z)) :
  ~ In marker before ->
  raw_decode json (detokenize tokenizer after) = Ok (VList items, n) ->
  forallb is_dict items = true ->
  call_loop tokenizer json random tools items [] g = (Ok res, g') ->
  parse (before ++ marker :: after) g = (Ok res, g', []) /\
  g' = after_ids random (length items) g /\
  exists texts : list str,
    res = flat_map (result_block tokenizer) texts /\
    length texts =
      length (filter (fun c => match named_tool tools c with
                               | Some _ => true
                               | None => false
                               end) items).
Proof.
  intros Hbefore Hdec Hdicts Hloop.
  destruct (call_loop_blocks tokenizer json random tools items [] res g g' Hloop)
    as (Hg & texts & Hres & Hlen).
  split; [|split; [exact Hg|exists texts; split; [exact Hres|exact Hlen]]].
  now apply (try_parse_funccall_loop tokenizer json random tools before after g g' items n).
Qed.

(** X11.  When every call object of the payload names an unknown tool (the
    empty list included), the result is the empty list, not the response;
    an identifier is still drawn for each call. *)
Theorem X11_unknown_tools_give_nothing
    (before after : list Z) (g : Rng random) (items : list Value) (n : nat) :
  ~ In marker before ->
  raw_decode json (detokenize tokenizer after) = Ok (VList items, n) ->
  Forall (skipped tools) items ->
  parse (before ++ marker :: after) g
    = (Ok [], after_ids random (length items) g, []).
Proof.
  intros Hbefore Hdec Hskip.
  assert (Hdicts : forallb is_dict items = true).
  { apply forallb_forall. intros c Hc. rewrite Forall_forall in Hskip.
    destruct (Hskip c Hc) as (entries & name & -> & _). reflexivity. }
  apply (try_parse_funccall_loop tokenizer json random tools before after g _ items n);
    trivial.
  now apply call_loop_all_skipped.
Qed.

(** X12.  [try_parse_funccall] never raises a [JSONDecodeError], [KeyError],
    [TypeError] or [ValueError]; it prints at most one line, and when it
    prints one the result is the response as the sole element. *)
Theorem X12_parser_error_contract (response : list Z) (g : Rng random) :
  let '(result, _, lines) := parse response g in
  (forall e, result = Raise e ->
     parser_catches (exc_class e) = false /\ lines = []) /\
  (lines = [] \/
   exists text, lines = [py "Error parsing tool call: " ++ text] /\
                result = Ok [response]).
Proof.
  unfold parse, try_parse_funccall.
  destruct (np_where_eq response _ 0) as [|pos more].
  - split; [discriminate|now left].
  - match goal with
    | |- context [let '(attempt, g0) := ?X in _] => destruct X as [[res|e] g1]
    end.
    + split; [discriminate|now left].
    + destruct (parser_catches (exc_class e)) eqn:Hc.
      * split; [discriminate|]. right. eauto.
      * split; [|now left]. intros e0 E. inversion E; subst. auto.
Qed.

End ParserExtras.

Lemma X9_no_marker_no_effect_witness :
  let response := tokenize demo_tokenizer (py "Nothing to call.") in
  demo_parse response 3 = (Ok [response], 3, []).
Proof.
  cbv zeta.
  apply (X9_no_marker_no_effect demo_tokenizer demo_json demo_random demo_tools).
  vm_compute. intuition discriminate.
Defined.

Lemma X10_result_is_blocks_witness :
  let payload :=
    json_text "[{'name':'unknown_tool','arguments':{}},{'name':'known_tool','arguments':{'x':1}}]" in
  let items :=
    [VDict [(py "name", VStr (py "unknown_tool")); (py "arguments", VDict [])];
     VDict [(py "name", VStr (py "known_tool"));
            (py "arguments", VDict [(py "x", VInt 1)])]] in
  let res := result_block demo_tokenizer (json_text "{'content': 2, 'call_id': 'abcdefghi'}") in
  demo_parse (tokenize demo_tokenizer (py "ok") ++ 5%Z :: tokenize demo_tokenizer payload) 0
    = (Ok res, 0, []) /\
  0 = after_ids demo_random 2 0 /\
  exists texts : list str,
    res = flat_map (result_block demo_tokenizer) texts /\
    length texts =
      length (filter (fun c => match named_tool demo_tools c with
                               | Some _ => true
                               | None => false
                               end) items).
Proof.
  cbv zeta.
  apply (X10_result_is_blocks demo_tokenizer demo_json demo_random demo_tools
           (tokenize demo_tokenizer (py "ok"))
           (tokenize demo_tokenizer
              (json_text "[{'name':'unknown_tool','arguments':{}},{'name':'known_tool','arguments':{'x':1}}]"))
           0 0
           [VDict [(py "name", VStr (py "unknown_tool")); (py "arguments", VDict [])];
            VDict [(py "name", VStr (py "known_tool"));
                   (py "arguments", VDict [(py "x", VInt 1)])]]
           82
           (result_block demo_tokenizer
              (json_text "{'content': 2, 'call_id': 'abcdefghi'}"))).
  - vm_compute. intuition discriminate.
  - vm_compute. reflexivity.
  - reflexivity.
  - vm_compute. reflexivity.
Defined.

Lemma X11_unknown_tools_give_nothing_witness :
  demo_parse (5%Z :: tokenize demo_tokenizer (json_text "[{'name':'unknown_tool'}, {'name': 7}]")) 0
    = (Ok [], after_ids demo_random 2 0, []).
Proof.
  apply (X11_unknown_tools_give_nothing demo_tokenizer demo_json demo_random demo_tools
           [] _ 0
           [VDict [(py "name", VStr (py "unknown_tool"))]; VDict [(py "name", VInt 7)]]
           38).
  - intros [].
  - vm_compute. reflexivity.
  - repeat constructor.
    + exists [(py "name", VStr (py "unknown_tool"))], (VStr (py "unknown_tool")).
      repeat split.
    + exists [(py "name", VInt 7)], (VInt 7). repeat split.
Defined.

Lemma X12_parser_error_contract_witness :
  let response := 5%Z :: tokenize demo_tokenizer (json_text "[{'name':'known_tool'}]") in
  let '(result, _, lines) := demo_parse response 0 in
  (forall e, result = Raise e ->
     parser_catches (exc_class e) = false /\ lines = []) /\
  (lines = [] \/
   exists text, lines = [py "Error parsing tool call: " ++ text] /\
                result = Ok [response]).
Proof.
  cbv zeta.
  apply (X12_parser_error_contract demo_tokenizer demo_json demo_random demo_tools).
Defined.

(** X13.  An instruction appended to the conversation never makes
    [preprocess] fail, and when the conversation still fits into
    [sequence_length] the batch row is the earlier tokens, then [[INST]], the
    tokens of the text and [[/INST]], then the padding; the mask marks
    exactly these tokens. *)
Theorem X13_instruction_in_the_batch
    (tokenizer : Tokenizer) (history : list (list Z)) (text : str)
    (sequence_length : Z) :
  let conversation :=
    concat history ++ [token_to_id tokenizer (py "[INST]")]
      ++ tokenize tokenizer text ++ [token_to_id tokenizer (py "[/INST]")] in
  (Z.of_nat (length conversation) <= sequence_length)%Z ->
  preprocess (history ++ encode_instruction tokenizer text) sequence_length =
    Ok (mkBatch
          [conversation
             ++ repeat 0%Z (Z.to_nat sequence_length - length conversation)]
          [repeat 1%Z (length conversation)
             ++ repeat 0%Z (Z.to_nat sequence_length - length conversation)]).
Proof.
  intros conversation Hfits.
  assert (Hc : concat (history ++ encode_instruction tokenizer text) = conversation).
  { rewrite concat_app. unfold encode_instruction. cbn [concat].
    now rewrite app_nil_r. }
  assert (Hlen : 2 <= length conversation).
  { subst conversation. rewrite !length_app. simpl. lia. }
  destruct (preprocess_positive (history ++ encode_instruction tokenizer text)
              sequence_length) as (batch & -> & Hids & Hmask).
  - destruct history; discriminate.
  - lia.
  - rewrite Hc in Hids, Hmask.
    rewrite firstn_all2 in Hids by lia.
    replace (Nat.min (length conversation) (Z.to_nat sequence_length))
      with (length conversation) in Hmask by lia.
    destruct batch as [ids mask]. simpl in *. now subst.
Qed.

Lemma X13_instruction_in_the_batch_witness :
  preprocess ([[1%Z]] ++ encode_instruction demo_tokenizer (py "Hi")) 8 =
    Ok (mkBatch [[1; 0; 1072; 1105; 0; 0; 0; 0]%Z] [[1; 1; 1; 1; 1; 0; 0; 0]%Z]).
Proof.
  apply (X13_instruction_in_the_batch demo_tokenizer [[1%Z]] (py "Hi") 8).
  vm_compute. discriminate.
Defined.

(** * [extract_tool_call]: which payload, and reading it back *)

Import RegexMoreFacts.

(** X14.  When [extract_tool_call] returns a string, the text holds an
    opening fence, whitespace, a newline, a payload and a closing fence; the
    closing fence is the first one after that newline, and the string
    returned is the payload with the whitespace at both ends removed. *)
Theorem X14_extract_returns_the_first_payload (text code : str) :
  extract_tool_call text = Some code ->
  exists pre ws payload post : str,
    text = pre ++ fence_open ++ ws ++ [newline] ++ payload ++ fence_close ++ post /\
    blank ws = true /\
    find fence_close (payload ++ fence_close ++ post) = Some (length payload) /\
    code = strip payload.
Proof.
  unfold extract_tool_call.
  destruct (Regex.search tool_call_pattern text) as [g|] eqn:Hs; [|discriminate].
  intros E. inversion E as [Hcode]. clear E.
  apply search_sound_first in Hs. destruct Hs as (pre & s0 & -> & Hm).
  apply match_here_shape in Hm.
  destruct Hm as (ws & payload & post & Hws & -> & Hnc & ->).
  exists pre, ws, payload, post.
  split; [reflexivity|]. split; [exact Hws|]. split; [|reflexivity].
  apply no_close_find; [exact Hnc|apply starts_with_app].
Qed.

Lemma X14_extract_returns_the_first_payload_witness :
  exists pre ws payload post : str,
    py "Sure. " ++ fence_open ++ py " " ++ [newline] ++ py "  f(1) " ++ fence_close
      ++ py "x" ++ fence_close
    = pre ++ fence_open ++ ws ++ [newline] ++ payload ++ fence_close ++ post /\
    blank ws = true /\
    find fence_close (payload ++ fence_close ++ post) = Some (length payload) /\
    py "f(1)" = strip payload.
Proof.
  apply (X14_extract_returns_the_first_payload
           (py "Sure. " ++ fence_open ++ py " " ++ [newline] ++ py "  f(1) "
              ++ fence_close ++ py "x" ++ fence_close)
           (py "f(1)")).
  vm_compute. reflexivity.
Defined.

(** X15.  The string [extract_tool_call] returns has no whitespace at either
    end, and it survives the round trip through the conversation history:
    wrapped again as [automated_tool_calling_example] wraps it,
    [```tool_code\n{tool_code}\n```<end_of_turn>], it is extracted
    unchanged. *)
Theorem X15_extracted_code_reads_back (response code : str) :
  extract_tool_call response = Some code ->
  strip code = code /\
  extract_tool_call (tool_code_turn code) = Some code.
Proof.
  intros Hx. split.
  - unfold extract_tool_call in Hx.
    destruct (Regex.search tool_call_pattern response) as [g|]; [|discriminate].
    inversion Hx as [Hcode].
    destruct (strip (match g with Some t => t | None => [] end)) as [|c t] eqn:Hs;
      [reflexivity|].
    destruct (strip_clean _ c t Hs) as [Hc Hr].
    unfold strip. cbn [lstrip]. rewrite Hc. exact Hr.
  - destruct (extract_tool_call_shape response code Hx) as (pre & ws & payload & post & -> & _ & Hfind & ->).
    destruct (strip payload) as [|c t] eqn:Hstrip; [reflexivity|].
    destruct (strip_clean payload c t Hstrip) as [Hc Hr].
    change (tool_code_turn (c :: t))
      with (fence_open ++ [newline] ++ (c :: t) ++ fence_close ++ py "<end_of_turn>").
    apply (extract_tool_call_refenced (c :: t) (py "<end_of_turn>") c t); trivial.
    rewrite <- Hstrip. apply (no_close_strip payload post).
    intros a u E Hne.
    pose proof (find_first _ _ _ Hfind a u) as H.
    rewrite skipn_app_length in H. apply H; trivial.
    rewrite firstn_app, firstn_all, Nat.sub_diag. simpl. now rewrite app_nil_r.
Qed.

Lemma X15_extracted_code_reads_back_witness :
  strip (py "f(1)") = py "f(1)" /\
  extract_tool_call (tool_code_turn (py "f(1)")) = Some (py "f(1)").
Proof.
  apply (X15_extracted_code_reads_back
           (py "Sure. " ++ fence_open ++ py " " ++ [newline] ++ py "  f(1) "
              ++ fence_close)
           (py "f(1)")).
  vm_compute. reflexivity.
Defined.

(** X16.  The prompts of the guide mention [```tool_code```] themselves, yet
    no match of the pattern begins inside them: on a prompt followed by any
    completion, [extract_tool_call] returns what it returns on the completion
    alone.  This holds for [message] and for the [base_prompt] of
    [automated_tool_calling_example]. *)
Theorem X16_the_prompt_holds_no_call (completion : str) :
  extract_tool_call (message ++ completion) = extract_tool_call completion /\
  extract_tool_call (base_prompt ++ completion) = extract_tool_call completion.
Proof.
  split; apply extract_tool_call_skips; vm_compute; reflexivity.
Qed.

(** * The two conversation loops *)

Import FlightAgent LoopVocabulary LoopDemo LoopFacts.

Section AutomatedLoop.

Variable World : Type.
Variable Namespace : Type.
Variable new_dict : World -> Namespace * World.
Variable py_eval : str -> Namespace -> Namespace -> Buffer -> World -> Run World Value.
Variable py_exec : str -> Namespace -> Namespace -> Buffer -> World -> Run World unit.
Variable exc_str : PyExc -> World -> Result str * World.
Variable generate : str -> World -> str * World.
Variable local_vars : World -> Namespace * World.
Variable py_format : Value -> World -> Result str * World.

Let example :=
  automated_tool_calling_example World Namespace new_dict py_eval py_exec exc_str
    generate local_vars py_format.



End AutomatedLoop.



Section FlightLoop.

Variable tokenizer : Tokenizer.
Variable json : JsonCodec.
Variable random : RandomGen.
Variable tools : Tools.
Variable Model : Type.
Variable generate : Batch -> Model -> Generated * Model.

Let agent := flight_agent tokenizer json random tools Model generate.
Let step := iteration tokenizer json random tools Model generate.
Let marker := token_to_id tokenizer (py "[TOOL_CALLS]").

(** X19.  The flight-booking loop ends, whatever the model answers.  When no
    exception ends it, it has run at most ten iterations and printed one
    response per iteration; either the flight is marked as booked or exactly
    ten iterations were run; and the closing
    [Maximum iterations reached] message is printed exactly when the flight is
    not marked as booked. *)
Theorem X19_the_loop_stops (initial_messages : list (list Z)) (g : Rng random) (m : Model) :
  exists r,
    agent initial_messages g m = Some r /\
    forall st, r = Ok st ->
      iteration_count st <= max_iterations /\
      (flight_booked st = true \/ iteration_count st = max_iterations) /\
      responses_shown (shown st) = iteration_count st /\
      (In MaximumIterationsReached (shown st) <-> flight_booked st = false).
Proof.
  subst agent. unfold flight_agent.
  set (st0 := mkAgentState initial_messages false 0 g m []).
  destruct (agent_loop_runs tokenizer json random tools Model generate
              max_iterations st0) as [r Hr];
    [subst st0; cbn [iteration_count]; lia|].
  rewrite Hr. destruct r as [st1|e].
  - apply agent_loop_ok in Hr.
    destruct Hr as (Hstop & Hmax & _ & Hresp & Hno).
    cbn [iteration_count shown st0 responses_shown filter length] in Hmax, Hresp, Hno.
    specialize (Hmax (Nat.le_0_l _)). specialize (Hno (fun H => H)).
    assert (Hor : flight_booked st1 = true \/ iteration_count st1 = max_iterations).
    { apply andb_false_iff in Hstop. destruct Hstop as [H|H].
      - left. now apply negb_false_iff.
      - right. apply Nat.ltb_ge in H. lia. }
    destruct (flight_booked st1) eqn:Hb.
    + eexists. split; [reflexivity|]. intros st E. inversion E; subst; clear E.
      split; [exact Hmax|]. split; [now left|]. split; [lia|].
      rewrite Hb. split; [intros H; contradiction|discriminate].
    + eexists. split; [reflexivity|]. intros st E. inversion E; subst; clear E.
      cbn [iteration_count flight_booked shown].
      split; [exact Hmax|]. split; [exact Hor|]. split.
      * rewrite responses_shown_app.
        change (responses_shown [MaximumIterationsReached]) with 0. lia.
      * split; [reflexivity|]. intros _. apply in_or_app. right. now left.
  - eexists. split; [reflexivity|]. intros st E. discriminate.
Qed.

(** X20.  The loop only ever extends [messages]: the messages it started
    from are still the first messages when it ends. *)
Theorem X20_messages_only_grow
    (initial_messages : list (list Z)) (g : Rng random) (m : Model)
    (st : AgentState random Model) :
  agent initial_messages g m = Some (Ok st) ->
  exists added, messages st = initial_messages ++ added.
Proof.
  subst agent. unfold flight_agent.
  set (st0 := mkAgentState initial_messages false 0 g m []).
  destruct (agent_loop tokenizer json random tools Model generate max_iterations st0)
    as [[st1|e]|] eqn:Hr; try discriminate.
  apply agent_loop_ok in Hr. destruct Hr as (_ & _ & Hadded & _).
  destruct (flight_booked st1); intros E; inversion E; subst; exact Hadded.
Qed.

(** X21.  The flag [flight_booked] follows the name in the payload, not the
    outcome of the call.  When the first call object of the response is named
    [book_flight] and is malformed (no [arguments], say), the iteration marks
    the flight as booked although no tool ran: [messages] gets the raw
    response alone, with no result block. *)
Theorem X21_booked_without_a_booking
    (st : AgentState random Model) (batch : Batch) (res : Generated) (m' : Model)
    (rows : list (list Z)) (before after : list Z)
    (call : list (str * Value)) (rest : list Value) (n : nat) :
  preprocess (messages st) default_sequence_length = Ok batch ->
  generate batch (model st) = (res, m') ->
  concat (out_padding_mask res) <> [] ->
  out_token_ids res = (before ++ marker :: after) :: rows ->
  ~ In marker before ->
  raw_decode json (detokenize tokenizer after) = Ok (VList (VDict call :: rest), n) ->
  forallb is_dict rest = true ->
  dict_get call (py "name") = Some (VStr (py "book_flight")) ->
  malformed_call tools call ->
  exists st',
    step st = Ok st' /\
    flight_booked st' = true /\
    messages st' = messages st ++ [before ++ marker :: after].
Proof.
  intros Hpre Hgen Hmask Hrow Hbefore Hdec Hdicts Hname Hbad.
  subst step marker. unfold iteration. rewrite Hpre, Hgen.
  assert (Harg : exists stop, argmax_not (out_padding_mask res) = Ok stop).
  { unfold argmax_not. destruct (concat (out_padding_mask res)); [contradiction|].
    destruct (first_true _ 0); eexists; reflexivity. }
  destruct Harg as [stop ->]. rewrite Hrow. cbn [first_row].
  assert (Hstatus : booking_status tokenizer json
                      (before ++ token_to_id tokenizer (py "[TOOL_CALLS]") :: after)
                      (flight_booked st) = Ok true).
  { unfold booking_status.
    destruct (np_where_eq_first before after _ 0 Hbefore) as (more & Hpos).
    rewrite Hpos. cbn [Nat.add].
    replace (skipn (length before + 1)
               (before ++ token_to_id tokenizer (py "[TOOL_CALLS]") :: after))
      with after.
    2:{ rewrite skipn_app, skipn_all2 by lia.
        replace (length before + 1 - length before) with 1 by lia. reflexivity. }
    rewrite Hdec. cbn [existsb names_book_flight]. rewrite Hname.
    replace (str_eqb (py "book_flight") (py "book_flight")) with true by reflexivity.
    cbn [orb]. now rewrite orb_true_r. }
  rewrite Hstatus.
  destruct (try_parse_funccall_degrades tokenizer json random tools before after
              (rng st) call rest n Hbefore Hdec Hdicts Hbad) as (g' & lines & Hparse).
  rewrite Hparse.
  eexists. split; [reflexivity|]. split; reflexivity.
Qed.

(** X22.  The text an iteration prints is that of the first row of the
    generated tokens up to the first padding position. *)
Theorem X22_printed_response
    (st st' : AgentState random Model) (batch : Batch) (res : Generated) (m' : Model)
    (row : list Z) (rows : list (list Z)) (k : nat) (tail : list bool) :
  preprocess (messages st) default_sequence_length = Ok batch ->
  generate batch (model st) = (res, m') ->
  out_token_ids res = row :: rows ->
  concat (out_padding_mask res) = repeat true k ++ false :: tail ->
  step st = Ok st' ->
  exists lines,
    shown st' = shown st ++ ResponseText (detokenize tokenizer (firstn k row))
                  :: map ParserLine lines.
Proof.
  intros Hpre Hgen Hrow Hmask. subst step. unfold iteration.
  rewrite Hpre, Hgen, Hrow, (argmax_not_first _ k tail Hmask). cbn [first_row].
  destruct (booking_status tokenizer json row (flight_booked st)); [|discriminate].
  destruct (try_parse_funccall tokenizer json random tools row (rng st))
    as [[[extension|e] g] lines]; [|discriminate].
  intros E. inversion E; subst. exists lines. cbn. now rewrite <- app_assoc.
Qed.

(** X23.  When the generated mask has no padding position at all, the
    iteration prints the text of no tokens, however long the response is. *)
Theorem X23_full_mask_prints_nothing
    (st st' : AgentState random Model) (batch : Batch) (res : Generated) (m' : Model)
    (row : list Z) (rows : list (list Z)) (k : nat) :
  preprocess (messages st) default_sequence_length = Ok batch ->
  generate batch (model st) = (res, m') ->
  out_token_ids res = row :: rows ->
  concat (out_padding_mask res) = repeat true (S k) ->
  step st = Ok st' ->
  exists lines,
    shown st' = shown st ++ ResponseText (detokenize tokenizer [])
                  :: map ParserLine lines.
Proof.
  intros Hpre Hgen Hrow Hmask. subst step. unfold iteration.
  rewrite Hpre, Hgen, Hrow, (argmax_not_full _ k Hmask). cbn [first_row firstn].
  destruct (booking_status tokenizer json row (flight_booked st)); [|discriminate].
  destruct (try_parse_funccall tokenizer json random tools row (rng st))
    as [[[extension|e] g] lines]; [|discriminate].
  intros E. inversion E; subst. exists lines. cbn. now rewrite <- app_assoc.
Qed.

End FlightLoop.

Lemma X20_messages_only_grow_witness :
  exists added, messages demo_final_state = demo_messages ++ added.
Proof.
  apply (X20_messages_only_grow demo_tokenizer demo_json demo_random demo_tools nat
           demo_model demo_messages 0 0 demo_final_state).
  vm_compute. reflexivity.
Defined.

Lemma X21_booked_without_a_booking_witness :
  let st := demo_agent_state demo_messages 1 in
  let row := [] ++ token_to_id demo_tokenizer (py "[TOOL_CALLS]")
               :: (tokenize demo_tokenizer (json_text "[{'name':'book_flight'}]")
                     ++ [0; 0]%Z) in
  exists st',
    iteration demo_tokenizer demo_json demo_random demo_tools nat demo_model st = Ok st' /\
    flight_booked st' = true /\
    messages st' = messages st ++ [row].
Proof.
  cbv zeta.
  eapply (X21_booked_without_a_booking demo_tokenizer demo_json demo_random demo_tools
            nat demo_model (demo_agent_state demo_messages 1) _ _ _ [] []
            (tokenize demo_tokenizer (json_text "[{'name':'book_flight'}]") ++ [0; 0]%Z)
            [(py "name", VStr (py "book_flight"))] [] 24).
  - reflexivity.
  - reflexivity.
  - discriminate.
  - reflexivity.
  - intros [].
  - vm_compute. reflexivity.
  - reflexivity.
  - reflexivity.
  - apply (missing_arguments demo_tools _ (py "book_flight") book_flight); reflexivity.
Defined.

Lemma X22_printed_response_witness :
  let st := demo_agent_state demo_messages 0 in
  exists lines,
    shown (demo_after demo_model st)
    = shown st ++ ResponseText
                    (detokenize demo_tokenizer
                       (firstn 11 (demo_responses 0 ++ [0; 0]%Z)))
                :: map ParserLine lines.
Proof.
  cbv zeta.
  eapply (X22_printed_response demo_tokenizer demo_json demo_random demo_tools nat
            demo_model (demo_agent_state demo_messages 0)
            (demo_after demo_model (demo_agent_state demo_messages 0))
            _ _ _ (demo_responses 0 ++ [0; 0]%Z) [] 11 [false]).
  - reflexivity.
  - reflexivity.
  - reflexivity.
  - reflexivity.
  - vm_compute. reflexivity.
Defined.

Lemma X23_full_mask_prints_nothing_witness :
  let st := demo_agent_state demo_messages 0 in
  exists lines,
    shown (demo_after demo_full_model st)
    = shown st ++ ResponseText (detokenize demo_tokenizer []) :: map ParserLine lines.
Proof.
  cbv zeta.
  eapply (X23_full_mask_prints_nothing demo_tokenizer demo_json demo_random demo_tools
            nat demo_full_model (demo_agent_state demo_messages 0)
            (demo_after demo_full_model (demo_agent_state demo_messages 0))
            _ _ _ (demo_responses 0) [] 10).
  - reflexivity.
  - reflexivity.
  - reflexivity.
  - reflexivity.
  - vm_compute. reflexivity.
Defined.
